(** * Cloak: the stream multiplexer's session and the client configuration parser

    A shallow embedding of [internal/multiplex/session.go] (the [Session]
    that owns the stream table, the accept queue and the shutdown signal) and
    of the client's state file ([rawConfig], [State], [ssvToJson],
    [State.ParseConfig]), followed by the properties of both.

    Go values are modelled as follows.
    - [uint32] is a [Z] kept in [0, 2^32) with the wrap-around written out
      ([u32]); [int] and [byte] are [Z].
    - A Go [string] and a [[]byte] are sequences of bytes: [string], whose
      characters are the 256 values of [ascii].
    - [map[uint32]*Stream] is a [gmap Z Stream].
    - A channel is a value of [chan]: nil, or a capacity, the buffered
      elements and the closed flag.
    - A call either returns, panics or parks its goroutine: [outcome].
    - What a call does besides changing the session (log lines, goroutines it
      starts) is returned as a list of [event]s. *)

From Stdlib Require Import ZArith List Ascii String Bool Lia Permutation Sorted.
From stdpp Require Import base option list gmap strings.

Local Open Scope Z_scope.

(** ** Go runtime: integers, errors, outcomes and channels *)

Module Go.

Definition u32 (z : Z) : Z := z mod 2 ^ 32.

(** [errors.New(msg)]: an error is its message. *)
Definition error : Type := string.

(** The result pair [(T, error)] of a Go function; [None] is [nil]. *)
Definition result (T : Type) : Type := (option T * option error)%type.

Inductive outcome (T : Type) : Type :=
| Ret (v : T)            (* the call returns [v] *)
| Panic (msg : string)   (* a run-time panic unwinds the call *)
| Block.                 (* the goroutine is parked at a channel operation *)
Arguments Ret {T} v.
Arguments Panic {T} msg.
Arguments Block {T}.

(** A channel value.  [NilChan] is the zero value of a channel type (a field
    that no [make] was assigned to). *)
Inductive chan (T : Type) : Type :=
| NilChan
| MkChan (cap : nat) (buf : list T) (closed : bool).
Arguments NilChan {T}.
Arguments MkChan {T} cap buf closed.

(** [make(chan T, n)] *)
Definition make_chan {T : Type} (n : nat) : chan T := MkChan n [] false.

(** [close(c)]: panics on a nil and on an already closed channel. *)
Definition close {T : Type} (c : chan T) : string + chan T :=
  match c with
  | NilChan => inl "close of nil channel"%string
  | MkChan _ _ true => inl "close of closed channel"%string
  | MkChan n buf false => inr (MkChan n buf true)
  end.

(** [<-c] as a [select] case, no sender being parked on [c]: [Some (v, c')]
    when the receive can proceed now ([v = None] is the zero value a closed
    and drained channel yields), [None] when it cannot.  A nil channel is
    never ready. *)
Definition recv {T : Type} (c : chan T) : option (option T * chan T) :=
  match c with
  | NilChan => None
  | MkChan n (v :: buf) cl => Some (Some v, MkChan n buf cl)
  | MkChan n [] true => Some (None, c)
  | MkChan n [] false => None
  end.

(** [c <- v] as a plain statement, no receiver being parked on [c]: on a
    nil channel it blocks for ever, on a closed one it panics, otherwise it
    completes exactly when the buffer has room. *)
Definition send {T : Type} (c : chan T) (v : T) : outcome (chan T) :=
  match c with
  | NilChan => Block
  | MkChan _ _ true => Panic "send on closed channel"%string
  | MkChan n buf false =>
      if (length buf <? n)%nat then Ret (MkChan n (buf ++ [v]) false)
      else Block
  end.

(** [len(c)] *)
Definition len {T : Type} (c : chan T) : nat :=
  match c with
  | NilChan => 0%nat
  | MkChan _ buf _ => length buf
  end.

(** The elements buffered in [c], oldest first. *)
Definition buffered {T : Type} (c : chan T) : list T :=
  match c with
  | NilChan => []
  | MkChan _ buf _ => buf
  end.

Definition is_closed {T : Type} (c : chan T) : bool :=
  match c with
  | NilChan => false
  | MkChan _ _ cl => cl
  end.

End Go.

(** ** internal/multiplex/session.go *)

Module Multiplex.
Import Go.

Definition errBrokenSession : string := "broken session".
Definition errRepeatSessionClosing : string := "trying to close a closed session".
Definition acceptBacklog : nat := 1024.
Definition closeBacklog : nat := 512.

(** Modelled from the spec: the Frame record (frame.go is not among the
    sources).  Section 3: stream id, sequence number, closing flag, payload. *)
Record Frame : Type := mkFrame {
  StreamID : Z;
  Seq : Z;
  Closing : Z;
  Payload : string
}.

(** Modelled from the spec: the Stream record and its constructor
    (stream.go is not among the sources).  Section 3: the id, the outbound
    sequence number, the one-shot closed flag and the inbound buffer; the
    back-reference to the owning session is left out. *)
Record Stream : Type := mkStream {
  stream_id : Z;
  nextSendSeq : Z;
  stream_closed : bool;
  inbound : string
}.

#[global] Instance Stream_eq_dec : EqDecision Stream.
Proof. solve_decision. Defined.

(** What a call does beyond updating the session. *)
Inductive event : Type :=
| EvLogPrintf (format : string) (arg : Z)   (* log.Printf(format, arg) *)
| EvGoCloseNoDelMap (st : Stream)           (* go st.closeNoDelMap() *)
| EvFrame (f : Frame).                      (* a frame handed to the switchboard *)

Section WithConn.
(** [net.Conn] *)
Variable Conn : Type.

(** Modelled from the spec: the switchboard (switchboard.go is not among
    the sources).  Section 3: a set of carrier connections, the first one
    seeded by the caller. *)
Record switchboard : Type := mkSwitchboard {
  ces : list Conn
}.

Record Session : Type := mkSession {
  id : Z;
  obfs : Frame -> string;
  deobfs : string -> option Frame;
  obfsedReader : Conn -> string -> Z * option error;
  nextStreamID : Z;
  streams : gmap Z Stream;
  sb : option switchboard;
  acceptCh : chan Stream;
  closeQCh : chan Z;
  die : chan unit;
  closing : bool
}.

(** The two mutexes ([streamsM], [closingM]) are not part of the state:
    every method releases what it acquired before it returns, and
    [Close] releases [closingM] by [defer], hence also when it panics.
    The functions below describe calls that run one after the other. *)

Definition set_nextStreamID (v : Z) (s : Session) : Session :=
  mkSession (id s) (obfs s) (deobfs s) (obfsedReader s) v (streams s)
            (sb s) (acceptCh s) (closeQCh s) (die s) (closing s).
Definition set_streams (v : gmap Z Stream) (s : Session) : Session :=
  mkSession (id s) (obfs s) (deobfs s) (obfsedReader s) (nextStreamID s) v
            (sb s) (acceptCh s) (closeQCh s) (die s) (closing s).
Definition set_sb (v : option switchboard) (s : Session) : Session :=
  mkSession (id s) (obfs s) (deobfs s) (obfsedReader s) (nextStreamID s)
            (streams s) v (acceptCh s) (closeQCh s) (die s) (closing s).
Definition set_acceptCh (v : chan Stream) (s : Session) : Session :=
  mkSession (id s) (obfs s) (deobfs s) (obfsedReader s) (nextStreamID s)
            (streams s) (sb s) v (closeQCh s) (die s) (closing s).
Definition set_die (v : chan unit) (s : Session) : Session :=
  mkSession (id s) (obfs s) (deobfs s) (obfsedReader s) (nextStreamID s)
            (streams s) (sb s) (acceptCh s) (closeQCh s) v (closing s).
Definition set_closing (v : bool) (s : Session) : Session :=
  mkSession (id s) (obfs s) (deobfs s) (obfsedReader s) (nextStreamID s)
            (streams s) (sb s) (acceptCh s) (closeQCh s) (die s) v.

(** Modelled from the spec: [makeSwitchboard(conn, sesh)].  It keeps the
    session as a back-reference only and assigns none of its fields. *)
Definition makeSwitchboard (conn : Conn) (sesh : Session) : switchboard :=
  mkSwitchboard [conn].

(** Modelled from the spec: [makeStream(id, sesh)] builds the record and
    does nothing else (no frame announces a stream's birth). *)
Definition makeStream (sid : Z) (sesh : Session) : Stream :=
  mkStream sid 0 false "".

(** The composite literal of [MakeSession] names eight fields; [sb],
    [die] and [closing] keep their zero values, then [sb] is assigned. *)
Definition MakeSession (sid : Z) (conn : Conn)
    (obfs : Frame -> string) (deobfs : string -> option Frame)
    (obfsedReader : Conn -> string -> Z * option error) : Session :=
  let sesh :=
    mkSession sid obfs deobfs obfsedReader
              1                        (* nextStreamID: 1 *)
              ∅                        (* streams: make(map[uint32]*Stream) *)
              None                     (* sb: nil so far *)
              (make_chan acceptBacklog)
              (make_chan closeBacklog)
              NilChan                  (* die: not in the literal *)
              false in                 (* closing: not in the literal *)
  set_sb (Some (makeSwitchboard conn sesh)) sesh.

Definition OpenStream (sesh : Session)
  : result Stream * list event * Session :=
  (* id := atomic.AddUint32(&sesh.nextStreamID, 1) *)
  let new := u32 (nextStreamID sesh + 1) in
  let sesh := set_nextStreamID new sesh in
  (* id -= 1 *)
  let sid := u32 (new - 1) in
  let stream := makeStream sid sesh in
  let sesh := set_streams (<[sid := stream]> (streams sesh)) sesh in
  ((Some stream, None), [], sesh).

(** [select] takes one of the cases that can proceed, chosen by the
    runtime, and parks the goroutine when none can.  The function lists
    the returns the call can make in the given state, in the order of
    the cases in the source; the empty list is a call that blocks. *)
Definition AcceptStream (sesh : Session)
  : list (result Stream * Session) :=
  (match recv (die sesh) with
   | Some (_, d) => [((None, Some errBrokenSession), set_die d sesh)]
   | None => []
   end)
  ++
  (match recv (acceptCh sesh) with
   | Some (stream, c) => [((stream, None), set_acceptCh c sesh)]
   | None => []
   end).

Definition delStream (sid : Z) (sesh : Session) : Session :=
  set_streams (delete sid (streams sesh)) sesh.

Definition isStream (sid : Z) (sesh : Session) : bool :=
  bool_decide (is_Some (streams sesh !! sid)).

Definition getStream (sid : Z) (sesh : Session) : option Stream :=
  streams sesh !! sid.

Definition addStream (sid : Z) (sesh : Session)
  : outcome Stream * list event * Session :=
  let ev := [EvLogPrintf "Adding stream %v" sid] in
  let stream := makeStream sid sesh in
  let sesh := set_streams (<[sid := stream]> (streams sesh)) sesh in
  match send (acceptCh sesh) stream with
  | Ret c => (Ret stream, ev, set_acceptCh c sesh)
  | Panic msg => (Panic msg, ev, sesh)
  | Block => (Block, ev, sesh)
  end.

(** A call of [addStream] that blocked is parked at its last statement
    but one, [sesh.acceptCh <- stream].  When a receive has made room in the
    queue the parked send completes, the stream going to the tail of the
    queue, and [addStream] returns the stream.  [addStream_resume stream
    sesh] is that rest of [addStream], from the send on, on the session as
    the receive left it. *)
Definition addStream_resume (stream : Stream) (sesh : Session)
  : outcome Stream * Session :=
  match send (acceptCh sesh) stream with
  | Ret c => (Ret stream, set_acceptCh c sesh)
  | Panic msg => (Panic msg, sesh)
  | Block => (Block, sesh)
  end.

(** The body of the [range] loop of [Close]: start the goroutine, delete
    the entry. *)
Definition close_step (acc : list event * gmap Z Stream)
    (entry : Z * Stream) : list event * gmap Z Stream :=
  (acc.1 ++ [EvGoCloseNoDelMap entry.2], delete entry.1 acc.2).

(** [for id, stream := range sesh.streams { ... }].  Go visits the
    entries in an unspecified order, and an entry deleted before it is
    reached is not visited; the loop deletes only the entry it is at, so
    every entry is visited once.  [map_to_list] fixes one order. *)
Definition close_sweep (m : gmap Z Stream) : list event * gmap Z Stream :=
  foldl close_step ([], m) (map_to_list m).

Definition Close (sesh : Session)
  : outcome (option error) * list event * Session :=
  if closing sesh then (Ret (Some errRepeatSessionClosing), [], sesh)
  else
    let sesh := set_closing true sesh in
    match close (die sesh) with
    | inl msg => (Panic msg, [], sesh)
    | inr d =>
        let sesh := set_die d sesh in
        let '(evs, m) := close_sweep (streams sesh) in
        (Ret None, evs, set_streams m sesh)
    end.

(** [n] calls of [OpenStream] one after the other: the ids they return,
    first call first, and the session they leave. *)
Fixpoint OpenStream_ids (n : nat) (sesh : Session) : list Z * Session :=
  match n with
  | O => ([], sesh)
  | S n' =>
      let '(r, _, sesh') := OpenStream sesh in
      let sid := match r.1 with Some st => stream_id st | None => 0 end in
      let '(ids, sesh'') := OpenStream_ids n' sesh' in
      (sid :: ids, sesh'')
  end.

(** [n] frames for the new stream ids [first], [first+1], ... arriving
    one after the other, as long as [addStream] returns. *)
Fixpoint addStreams (n : nat) (first : Z) (sesh : Session) : Session :=
  match n with
  | O => sesh
  | S n' => addStreams n' (first + 1) (addStream first sesh).2
  end.

End WithConn.

Arguments mkSwitchboard {Conn} _.
Arguments ces {Conn} _.
Arguments id {Conn} _.
Arguments obfs {Conn} _.
Arguments deobfs {Conn} _.
Arguments obfsedReader {Conn} _.
Arguments nextStreamID {Conn} _.
Arguments streams {Conn} _.
Arguments sb {Conn} _.
Arguments acceptCh {Conn} _.
Arguments closeQCh {Conn} _.
Arguments die {Conn} _.
Arguments closing {Conn} _.
Arguments set_nextStreamID {Conn} _ _.
Arguments set_streams {Conn} _ _.
Arguments set_sb {Conn} _ _.
Arguments set_acceptCh {Conn} _ _.
Arguments set_die {Conn} _ _.
Arguments set_closing {Conn} _ _.
Arguments MakeSession {Conn} _ _ _ _ _.
Arguments OpenStream {Conn} _.
Arguments AcceptStream {Conn} _.
Arguments delStream {Conn} _ _.
Arguments isStream {Conn} _ _.
Arguments getStream {Conn} _ _.
Arguments addStream {Conn} _ _.
Arguments addStream_resume {Conn} _ _.
Arguments Close {Conn} _.
Arguments OpenStream_ids {Conn} _ _.
Arguments addStreams {Conn} _ _ _.

(** A session to evaluate the operations on: one carrier, hooks that
    carry the payload as it is. *)
Definition demo_session : Session unit :=
  MakeSession 0 tt Payload (fun b => Some (mkFrame 0 0 0 b))
              (fun _ b => (Z.of_nat (String.length b), None)).

(** More sessions to evaluate the operations on.  [made_die_session] is a session
    whose [die] channel was made; [pending_closed_session] is what it becomes
    when the peer opens stream 7 and [Close] is called before the stream is
    accepted; [full_session] has seen 1024 streams opened by the peer, none
    of them accepted; [peer_opened_session] has seen the peer open stream 1. *)
Definition made_die_session : Session unit :=
  set_die (make_chan 0) demo_session.

Definition pending_closed_session : Session unit :=
  (Close (addStream 7 made_die_session).2).2.

Definition full_session : Session unit :=
  addStreams 1024 1 demo_session.

Definition peer_opened_session : Session unit :=
  (addStream 1 demo_session).2.

(** The sessions a program gets by building one with [MakeSession] and
    calling the methods of this file on it, one call after the other.  For
    [addStream] and [Close] the session is the one the call leaves, also
    when it blocks or panics; for [AcceptStream] it is the one of any return
    the call can make. *)
Inductive reachable {Conn : Type} : Session Conn -> Prop :=
| reach_MakeSession sid conn o d r :
    reachable (MakeSession sid conn o d r)
| reach_OpenStream sesh :
    reachable sesh -> reachable (OpenStream sesh).2
| reach_addStream sid sesh :
    reachable sesh -> reachable (addStream sid sesh).2
| reach_delStream sid sesh :
    reachable sesh -> reachable (delStream sid sesh)
| reach_Close sesh :
    reachable sesh -> reachable (Close sesh).2
| reach_AcceptStream sesh out :
    reachable sesh -> In out (AcceptStream sesh) -> reachable out.2.

End Multiplex.

(** ** Go's [strings] package, as far as the client calls it *)

Module Strings.

Local Open Scope string_scope.

(** [strings.Contains(s, substr)]: [substr] starts at some offset of [s]. *)
Fixpoint Contains (s substr : string) : bool :=
  String.prefix substr s
  || match s with
     | EmptyString => false
     | String _ s' => Contains s' substr
     end.

(** The scan behind [strings.Replace(s, old, new, -1)] for a non-empty
    [old]: left to right, matches do not overlap.  [skip] counts the bytes
    of the current match that are still to be passed over. *)
Fixpoint replace_go (old new : string) (skip : nat) (s : string) : string :=
  match s with
  | EmptyString => EmptyString
  | String c s' =>
      match skip with
      | S k => replace_go old new k s'
      | O =>
          if String.prefix old s
          then new +:+ replace_go old new (String.length old - 1) s'
          else String c (replace_go old new 0 s')
      end
  end.

(** [strings.Replace(s, old, new, -1)].  With an empty [old] Go puts [new]
    in front of every character and at the end; the client never passes
    one, and the model does so byte by byte. *)
Definition Replace (s old new : string) : string :=
  match old with
  | EmptyString =>
      (fix ins (t : string) : string :=
         match t with
         | EmptyString => new
         | String c t' => new +:+ String c (ins t')
         end) s
  | _ => replace_go old new 0 s
  end.

(** The scan behind [strings.Split] and [strings.SplitN] for a non-empty
    [sep].  [n] is the number of pieces still allowed (negative: no limit):
    the separator is cut at unless one piece is left, which then takes the
    rest as it is.  [cur] is the piece being collected. *)
Fixpoint split_go (sep : string) (n : Z) (skip : nat) (cur s : string)
  : list string :=
  match s with
  | EmptyString => [cur]
  | String c s' =>
      match skip with
      | S k => split_go sep n k cur s'
      | O =>
          if negb (n =? 1)%Z && String.prefix sep s
          then cur :: split_go sep (n - 1) (String.length sep - 1) "" s'
          else split_go sep n 0 (cur +:+ String c "") s'
      end
  end.

(** [strings.SplitN(s, sep, n)]: [nil] for [n = 0].  With an empty [sep]
    Go explodes [s] into characters; the client never passes one, and the
    model then returns [s] whole. *)
Definition SplitN (s sep : string) (n : Z) : list string :=
  if (n =? 0)%Z then []
  else match sep with
       | EmptyString => [s]
       | _ => split_go sep n 0 "" s
       end.

(** [strings.Split(s, sep)] is [SplitN] without a limit. *)
Definition Split (s sep : string) : list string := SplitN s sep (-1).

(** [s[:n]] for [0 <= n <= len(s)] *)
Fixpoint take (n : nat) (s : string) : string :=
  match n, s with
  | S n', String c s' => String c (take n' s')
  | _, _ => EmptyString
  end.

End Strings.

(** ** The client's configuration: [rawConfig], [State], [ssvToJson], [ParseConfig] *)

Module Client.
Import Go Strings.

Local Open Scope string_scope.

(** The quotation mark, byte 34. *)
Definition dq : string := String (ascii_of_nat 34) EmptyString.

Record rawConfig : Type := mkRawConfig {
  raw_ServerName : string;
  raw_ProxyMethod : string;
  raw_EncryptionMethod : string;
  raw_UID : string;
  raw_PublicKey : string;
  raw_TicketTimeHint : Z;
  raw_BrowserSig : string;
  raw_NumConn : Z
}.

(** What [ParseConfig] calls outside this package: the file system, Go's
    [encoding/json] and [encoding/base64], and [ecdh.Unmarshal] of
    internal/ecdh, which is not among the sources. *)
Class Externals : Type := {
  PublicKey : Type;            (* crypto.PublicKey *)
  keyPair : Type;
  Time : Type;                 (* time.Time *)
  (* ioutil.ReadFile(name) *)
  ioutil_ReadFile : string -> string * option error;
  (* json.Unmarshal(content, &preParse), preParse being the zero value *)
  json_Unmarshal : string -> rawConfig * option error;
  (* base64.StdEncoding.DecodeString(s) *)
  base64_DecodeString : string -> string * option error;
  (* ecdh.Unmarshal(data) *)
  ecdh_Unmarshal : string -> option PublicKey * bool
}.

Section WithExternals.
Context `{Ext : Externals}.

(** [keyPairsM] is a lock and not part of the value.  [UID] is a byte
    slice; [staticPub] is an interface value, [None] being nil. *)
Record State : Type := mkState {
  LocalHost : string;
  LocalPort : string;
  RemoteHost : string;
  RemotePort : string;
  Now : unit -> Time;
  sessionID : Z;
  UID : string;
  staticPub : option PublicKey;
  keyPairs : gmap Z keyPair;
  ProxyMethod : string;
  EncryptionMethod : Z;
  TicketTimeHint : Z;
  ServerName : string;
  BrowserSig : string;
  NumConn : Z
}.

Definition InitState (localHost localPort remoteHost remotePort : string)
    (nowFunc : unit -> Time) : State :=
  mkState localHost localPort remoteHost remotePort nowFunc
          0 "" None ∅ "" 0 0 "" "" 0.

Definition SetSessionID (v : Z) (sta : State) : State :=
  mkState (LocalHost sta) (LocalPort sta) (RemoteHost sta) (RemotePort sta)
          (Now sta) v (UID sta) (staticPub sta) (keyPairs sta)
          (ProxyMethod sta) (EncryptionMethod sta) (TicketTimeHint sta)
          (ServerName sta) (BrowserSig sta) (NumConn sta).
Definition set_UID (v : string) (sta : State) : State :=
  mkState (LocalHost sta) (LocalPort sta) (RemoteHost sta) (RemotePort sta)
          (Now sta) (sessionID sta) v (staticPub sta) (keyPairs sta)
          (ProxyMethod sta) (EncryptionMethod sta) (TicketTimeHint sta)
          (ServerName sta) (BrowserSig sta) (NumConn sta).
Definition set_staticPub (v : option PublicKey) (sta : State) : State :=
  mkState (LocalHost sta) (LocalPort sta) (RemoteHost sta) (RemotePort sta)
          (Now sta) (sessionID sta) (UID sta) v (keyPairs sta)
          (ProxyMethod sta) (EncryptionMethod sta) (TicketTimeHint sta)
          (ServerName sta) (BrowserSig sta) (NumConn sta).
Definition set_ProxyMethod (v : string) (sta : State) : State :=
  mkState (LocalHost sta) (LocalPort sta) (RemoteHost sta) (RemotePort sta)
          (Now sta) (sessionID sta) (UID sta) (staticPub sta) (keyPairs sta)
          v (EncryptionMethod sta) (TicketTimeHint sta)
          (ServerName sta) (BrowserSig sta) (NumConn sta).
Definition set_EncryptionMethod (v : Z) (sta : State) : State :=
  mkState (LocalHost sta) (LocalPort sta) (RemoteHost sta) (RemotePort sta)
          (Now sta) (sessionID sta) (UID sta) (staticPub sta) (keyPairs sta)
          (ProxyMethod sta) v (TicketTimeHint sta)
          (ServerName sta) (BrowserSig sta) (NumConn sta).
Definition set_TicketTimeHint (v : Z) (sta : State) : State :=
  mkState (LocalHost sta) (LocalPort sta) (RemoteHost sta) (RemotePort sta)
          (Now sta) (sessionID sta) (UID sta) (staticPub sta) (keyPairs sta)
          (ProxyMethod sta) (EncryptionMethod sta) v
          (ServerName sta) (BrowserSig sta) (NumConn sta).
Definition set_ServerName (v : string) (sta : State) : State :=
  mkState (LocalHost sta) (LocalPort sta) (RemoteHost sta) (RemotePort sta)
          (Now sta) (sessionID sta) (UID sta) (staticPub sta) (keyPairs sta)
          (ProxyMethod sta) (EncryptionMethod sta) (TicketTimeHint sta)
          v (BrowserSig sta) (NumConn sta).
Definition set_BrowserSig (v : string) (sta : State) : State :=
  mkState (LocalHost sta) (LocalPort sta) (RemoteHost sta) (RemotePort sta)
          (Now sta) (sessionID sta) (UID sta) (staticPub sta) (keyPairs sta)
          (ProxyMethod sta) (EncryptionMethod sta) (TicketTimeHint sta)
          (ServerName sta) v (NumConn sta).
Definition set_NumConn (v : Z) (sta : State) : State :=
  mkState (LocalHost sta) (LocalPort sta) (RemoteHost sta) (RemotePort sta)
          (Now sta) (sessionID sta) (UID sta) (staticPub sta) (keyPairs sta)
          (ProxyMethod sta) (EncryptionMethod sta) (TicketTimeHint sta)
          (ServerName sta) (BrowserSig sta) v.

End WithExternals.

(** The closure [unescape] of [ssvToJson]: three replacements, one after
    the other, each over the whole string. *)
Definition unescape (s : string) : string :=
  let r := Replace s "\\" "\" in
  let r := Replace r "\=" "=" in
  let r := Replace r "\;" ";" in
  r.

(** The [range] loop of [ssvToJson]: [ret] is the JSON text so far.  An
    empty line ends the loop ([break]); a line without [=] makes [sp] a
    slice of length one and [sp[1]] panics. *)
Fixpoint ssv_loop (lines : list string) (ret : string) : outcome string :=
  match lines with
  | [] => Ret ret
  | ln :: lines' =>
      if String.eqb ln "" then Ret ret
      else
        let sp := SplitN ln "=" 2 in
        match sp !! 0%nat, sp !! 1%nat with
        | Some key, Some value =>
            if String.eqb key "TicketTimeHint" || String.eqb key "NumConn"
            then ssv_loop lines' (ret +:+ (dq +:+ key +:+ dq +:+ ":" +:+ value +:+ ","))
            else ssv_loop lines' (ret +:+ (dq +:+ key +:+ dq +:+ ":" +:+ dq +:+ value +:+ dq +:+ ","))
        | _, _ => Panic "runtime error: index out of range [1] with length 1"
        end
  end.

Definition ssvToJson (ssv : string) : outcome string :=
  let lines := Split (unescape ssv) ";" in
  match ssv_loop lines "{" with
  | Ret ret =>
      (* ret = ret[:len(ret)-1]; ret = append(ret, '}') *)
      if (String.length ret =? 0)%nat
      then Panic "runtime error: slice bounds out of range [:-1]"
      else Ret (take (String.length ret - 1) ret +:+ "}")
  | Panic msg => Panic msg
  | Block => Block
  end.

Section ParseConfig.
Context `{Ext : Externals}.

(** The first statement of [ParseConfig]: where the JSON text comes from.
    A panic of [ssvToJson] unwinds [ParseConfig]. *)
Definition config_content (conf : string) : outcome (string * option error) :=
  if Contains conf ";" && Contains conf "="
  then match ssvToJson conf with
       | Ret content => Ret (content, None)
       | Panic msg => Panic msg
       | Block => Block
       end
  else Ret (ioutil_ReadFile conf).

(** The [switch] of [ParseConfig]; [None] is the [default] case. *)
Definition encryptionByte (method : string) : option Z :=
  if String.eqb method "plain" then Some 0%Z
  else if String.eqb method "aes" then Some 1%Z
  else if String.eqb method "chacha20-poly1305" then Some 2%Z
  else None.

Definition ParseConfig (conf : string) (sta : State)
  : outcome (option error) * State :=
  match config_content conf with
  | Panic msg => (Panic msg, sta)
  | Block => (Block, sta)
  | Ret (_, Some err) => (Ret (Some err), sta)
  | Ret (content, None) =>
  match json_Unmarshal content with
  | (_, Some err) => (Ret (Some err), sta)
  | (preParse, None) =>
  match encryptionByte (raw_EncryptionMethod preParse) with
  | None => (Ret (Some "Unknown encryption method"), sta)
  | Some e =>
  let sta := set_EncryptionMethod e sta in
  let sta := set_ProxyMethod (raw_ProxyMethod preParse) sta in
  let sta := set_ServerName (raw_ServerName preParse) sta in
  let sta := set_TicketTimeHint (raw_TicketTimeHint preParse) sta in
  let sta := set_BrowserSig (raw_BrowserSig preParse) sta in
  let sta := set_NumConn (raw_NumConn preParse) sta in
  match base64_DecodeString (raw_UID preParse) with
  | (_, Some err) => (Ret (Some ("Failed to parse UID: " +:+ err)), sta)
  | (uid, None) =>
  let sta := set_UID uid sta in
  match base64_DecodeString (raw_PublicKey preParse) with
  | (_, Some err) => (Ret (Some ("Failed to parse Public key: " +:+ err)), sta)
  | (pubBytes, None) =>
  match ecdh_Unmarshal pubBytes with
  | (_, false) => (Ret (Some "Failed to unmarshal Public key"), sta)
  | (pub, true) => (Ret None, set_staticPub pub sta)
  end end end end end end.

(** The state after [ParseConfig] has copied the six plain fields: what
    [sta] was, but for the encryption byte [e] and the five fields of
    [preParse]. *)
Definition overwritten (e : Z) (preParse : rawConfig) (sta : State) : State :=
  mkState (LocalHost sta) (LocalPort sta) (RemoteHost sta) (RemotePort sta)
          (Now sta) (sessionID sta) (UID sta) (staticPub sta) (keyPairs sta)
          (raw_ProxyMethod preParse) e (raw_TicketTimeHint preParse)
          (raw_ServerName preParse) (raw_BrowserSig preParse)
          (raw_NumConn preParse).

End ParseConfig.

(** *** The two forms of a configuration, as section 6 of the design words them *)

(** A configuration as the list of its entries, key and value text. *)
Definition entry : Type := (string * string)%type.

(** One entry of the single-line form, [Key=Value]. *)
Definition entry_line (e : entry) : string := e.1 +:+ "=" +:+ e.2.

(** The single-line form [Key1=Value1;Key2=Value2;...]. *)
Definition single_line (cfg : list entry) : string :=
  String.concat ";" (map entry_line cfg).

Definition int_key (k : string) : bool :=
  String.eqb k "TicketTimeHint" || String.eqb k "NumConn".

(** One member of the JSON object: the value of [TicketTimeHint] and of
    [NumConn] without quotes, every other value between quotes. *)
Definition json_member (e : entry) : string :=
  dq +:+ e.1 +:+ dq +:+ ":" +:+
  (if int_key e.1 then e.2 else dq +:+ e.2 +:+ dq).

(** The JSON document with the same entries in the same order. *)
Definition json_document (cfg : list entry) : string :=
  "{" +:+ String.concat "," (map json_member cfg) +:+ "}".

(** The escapes of the single-line form read backwards: what has to be
    written for a key or a value so that [\\], [\=] and [\;] decode to it. *)
Fixpoint escape (s : string) : string :=
  match s with
  | EmptyString => EmptyString
  | String c s' =>
      if Ascii.eqb c "\" || Ascii.eqb c "=" || Ascii.eqb c ";"
      then String "\" (String c (escape s'))
      else String c (escape s')
  end.

(** The single-line form with every key and value escaped. *)
Definition escaped_single_line (cfg : list entry) : string :=
  single_line (map (fun e : entry => (escape e.1, escape e.2)) cfg).

(** The characters of a string. *)
Definition chars (s : string) : list ascii := list_ascii_of_string s.

(** A key holds no [;], [=] or [\]; a value holds no [;] or [\] (it may
    hold [=], as base-64 padding does). *)
Definition plain_key_char (c : ascii) : Prop :=
  c <> ";"%char /\ c <> "="%char /\ c <> "\"%char.

Definition plain_value_char (c : ascii) : Prop :=
  c <> ";"%char /\ c <> "\"%char.

Definition plain_entry (e : entry) : Prop :=
  Forall plain_key_char (chars e.1) /\ Forall plain_value_char (chars e.2).

#[global] Instance plain_key_char_dec c : Decision (plain_key_char c).
Proof. unfold plain_key_char. apply _. Defined.

#[global] Instance plain_value_char_dec c : Decision (plain_value_char c).
Proof. unfold plain_value_char. apply _. Defined.

#[global] Instance plain_entry_dec e : Decision (plain_entry e).
Proof. unfold plain_entry. apply _. Defined.

(** A segment of the single-line form that the loop of [ssvToJson] takes
    as an entry and goes on from: not empty, and with a [=] in it. *)
Definition entry_segment (ln : string) : Prop :=
  ln <> "" /\ In "="%char (chars ln).

(** [eq_escaped line plain]: [line] is [plain] with a backslash put in
    front of some of its [=]; [plain] has no backslash of its own. *)
Inductive eq_escaped : string -> string -> Prop :=
| eq_escaped_nil : eq_escaped "" ""
| eq_escaped_char c line plain :
    c <> "\"%char -> eq_escaped line plain ->
    eq_escaped (String c line) (String c plain)
| eq_escaped_esc line plain :
    eq_escaped line plain ->
    eq_escaped (String "\" (String "=" line)) (String "=" plain).

(** *** A configuration and stand-ins for the outside world, to evaluate the parser on *)

(** Scenario S1 of the design: the entries, and what they decode to.  The
    public key is 32 zero bytes in base 64. *)
Definition uid_b64 : string := "AAAAAAAAAAAAAAAAAAAAAA==".
Definition pub_b64 : string := "AAAAAAAAAAAAAAAAAAAAAAAAAAAAAAAAAAAAAAAAAAA=".

Definition zero_bytes (n : nat) : string :=
  string_of_list_ascii (repeat (ascii_of_nat 0) n).

Definition cfg_S1 : list entry :=
  [ ("ServerName", "www.example.com"); ("ProxyMethod", "shadowsocks");
    ("EncryptionMethod", "aes"); ("UID", uid_b64); ("PublicKey", pub_b64);
    ("TicketTimeHint", "3600"); ("BrowserSig", "chrome"); ("NumConn", "4") ].

Definition raw_S1 : rawConfig :=
  mkRawConfig "www.example.com" "shadowsocks" "aes" uid_b64 pub_b64 3600
              "chrome" 4.

(** Scenario S1 with a browser signature that holds a [;]. *)
Definition cfg_semicolon : list entry :=
  [ ("ServerName", "www.example.com"); ("ProxyMethod", "shadowsocks");
    ("EncryptionMethod", "aes"); ("UID", uid_b64); ("PublicKey", pub_b64);
    ("TicketTimeHint", "3600"); ("BrowserSig", "a;b"); ("NumConn", "4") ].

Definition raw_semicolon : rawConfig :=
  mkRawConfig "www.example.com" "shadowsocks" "aes" uid_b64 pub_b64 3600
              "a;b" 4.

(** Scenario S2: an encryption method that is not known. *)
Definition cfg_S2 : list entry := [ ("EncryptionMethod", "blowfish") ].

Definition raw_S2 : rawConfig :=
  mkRawConfig "" "" "blowfish" "" "" 0 "" 0.

(** A configuration whose UID is not base 64. *)
Definition cfg_badUID : list entry :=
  [ ("ServerName", "www.example.com"); ("EncryptionMethod", "plain");
    ("UID", "!") ; ("NumConn", "4") ].

Definition raw_badUID : rawConfig :=
  mkRawConfig "www.example.com" "" "plain" "!" "" 0 "" 4.

(** Stand-ins: a file system with two files, a JSON decoder that knows the
    four documents above, a base-64 decoder that knows the two texts above,
    and a key decoder that takes any 32 bytes. *)
#[local] Instance demo_externals : Externals := {|
  PublicKey := string;
  keyPair := unit;
  Time := Z;
  ioutil_ReadFile name :=
    if String.eqb name "ckclient.json" then (json_document cfg_S1, None)
    else if String.eqb name "semicolon.json"
    then (json_document cfg_semicolon, None)
    else ("", Some ("open " +:+ name +:+ ": no such file or directory"));
  json_Unmarshal content :=
    if String.eqb content (json_document cfg_S1) then (raw_S1, None)
    else if String.eqb content (json_document cfg_semicolon)
    then (raw_semicolon, None)
    else if String.eqb content (json_document cfg_S2) then (raw_S2, None)
    else if String.eqb content (json_document cfg_badUID) then (raw_badUID, None)
    else (mkRawConfig "" "" "" "" "" 0 "" 0,
          Some "invalid character looking for beginning of value");
  base64_DecodeString text :=
    if String.eqb text uid_b64 then (zero_bytes 16, None)
    else if String.eqb text pub_b64 then (zero_bytes 32, None)
    else ("", Some "illegal base64 data at input byte 0");
  ecdh_Unmarshal data :=
    if (String.length data =? 32)%nat then (Some data, true)
    else (None, false)
|}.

(** A state as [InitState] makes it. *)
Definition demo_state : State :=
  InitState "127.0.0.1" "1984" "203.0.113.7" "443" (fun _ => 0%Z).

End Client.


(** * Properties of the session *)

Import Go Multiplex.

Section SessionFacts.
Context {Conn : Type}.
Implicit Types (sesh : Session Conn) (m : gmap Z Stream).

Lemma u32_idemp z : u32 (u32 z) = u32 z.
Proof. unfold u32. apply Z.mod_mod. lia. Qed.

Lemma u32_small z : 0 <= z < 2 ^ 32 -> u32 z = z.
Proof. unfold u32. intros. apply Z.mod_small. assumption. Qed.

(** The id a call of [OpenStream] hands out is the counter before the call:
    adding one and taking it back, both modulo 2^32. *)
Lemma u32_succ_pred z : u32 (u32 (z + 1) - 1) = u32 z.
Proof.
  unfold u32. rewrite Zminus_mod_idemp_l. f_equal. lia.
Qed.

Lemma u32_add_l a b : u32 (u32 a + b) = u32 (a + b).
Proof. unfold u32. apply Zplus_mod_idemp_l. Qed.

(** *** The sweep of [Close] *)

Lemma close_sweep_fold (l : list (Z * Stream)) (acc : list event * gmap Z Stream) :
  foldl close_step acc l =
  (acc.1 ++ map (fun e => EvGoCloseNoDelMap e.2) l,
   foldl (fun m' e => delete e.1 m') acc.2 l).
Proof.
  revert acc. induction l as [|e l IH]; intros [evs m']; simpl.
  - by rewrite app_nil_r.
  - rewrite IH. simpl. by rewrite <- app_assoc.
Qed.

Lemma delete_all_lookup (l : list (Z * Stream)) m k :
  foldl (fun m' e => delete e.1 m') m l !! k =
  if decide (k ∈ l.*1) then None else m !! k.
Proof.
  revert m. induction l as [|[k' st] l IH]; intros m.
  - reflexivity.
  - cbn [foldl]. rewrite IH, fmap_cons. cbn [fst].
    destruct (decide (k ∈ l.*1)) as [Hin|Hnin];
      destruct (decide (k ∈ k' :: l.*1)) as [Hin'|Hnin']; try done.
    + exfalso. apply Hnin'. by right.
    + apply elem_of_cons in Hin' as [->|Hin']; [|done]. apply lookup_delete_eq.
    + apply lookup_delete_ne. intros ->. apply Hnin'. by left.
Qed.

(** The sweep empties the table and starts one goroutine per entry. *)
Lemma close_sweep_spec m :
  close_sweep m =
  (map (fun e => EvGoCloseNoDelMap e.2) (map_to_list m), ∅).
Proof.
  unfold close_sweep. rewrite close_sweep_fold. simpl. f_equal.
  apply map_eq. intros k. rewrite delete_all_lookup, lookup_empty.
  destruct (decide (k ∈ (map_to_list m).*1)) as [|Hnin]; [done|].
  destruct (m !! k) as [st|] eqn:Hk; [|done].
  exfalso. apply Hnin. apply list_elem_of_fmap.
  exists (k, st). split; [done|]. by apply elem_of_map_to_list.
Qed.

(** [Close] on a session whose [die] channel was made and is still open:
    the call returns nil, [closing] is set, [die] is closed, the table is
    empty and [closeNoDelMap] was started on each of its streams. *)
Lemma Close_open_die sesh n buf :
  closing sesh = false ->
  die sesh = MkChan n buf false ->
  Close sesh =
  (Ret None,
   map (fun e => EvGoCloseNoDelMap e.2) (map_to_list (streams sesh)),
   set_streams ∅ (set_die (MkChan n buf true) (set_closing true sesh))).
Proof.
  intros Hc Hd. unfold Close. rewrite Hc. simpl. rewrite Hd. simpl.
  by rewrite close_sweep_spec.
Qed.

(** [Close] on a session that is already closing. *)
Lemma Close_repeat sesh :
  closing sesh = true ->
  Close sesh = (Ret (Some errRepeatSessionClosing), [], sesh).
Proof. intros Hc. unfold Close. by rewrite Hc. Qed.

(** [Close] never takes [closing] back to false. *)
Lemma Close_closing sesh : closing (Close sesh).2 = true.
Proof.
  unfold Close. destruct (closing sesh) eqn:Hc; [done|].
  simpl. destruct (close (die sesh)); [done|].
  simpl. by destruct (close_sweep _).
Qed.

(** No operation of the session assigns [die] but [Close]. *)
Lemma OpenStream_die sesh : die (OpenStream sesh).2 = die sesh.
Proof. reflexivity. Qed.

Lemma addStream_die sid sesh : die (addStream sid sesh).2 = die sesh.
Proof. unfold addStream. by destruct (send _ _). Qed.

Lemma Close_nil_die sesh : die sesh = NilChan -> die (Close sesh).2 = NilChan.
Proof.
  intros Hd. unfold Close. destruct (closing sesh); [done|].
  simpl. by rewrite Hd.
Qed.

(** *** The ids of [OpenStream] *)

Lemma OpenStream_ids_formula (n : nat) sesh :
  (OpenStream_ids n sesh).1 =
  map (fun k : nat => u32 (nextStreamID sesh + Z.of_nat k)) (seq 0 n).
Proof.
  revert sesh. induction n as [|n IH]; intros sesh; [done|].
  cbn [OpenStream_ids]. unfold OpenStream at 1. cbn beta iota zeta.
  specialize (IH (set_streams
    (<[u32 (u32 (nextStreamID sesh + 1) - 1) :=
       makeStream Conn (u32 (u32 (nextStreamID sesh + 1) - 1))
                  (set_nextStreamID (u32 (nextStreamID sesh + 1)) sesh)]>
       (streams (set_nextStreamID (u32 (nextStreamID sesh + 1)) sesh)))
    (set_nextStreamID (u32 (nextStreamID sesh + 1)) sesh))).
  destruct (OpenStream_ids n _) as [ids sesh''] eqn:E.
  simpl in IH. simpl. rewrite IH. f_equal.
  - rewrite u32_succ_pred. f_equal. lia.
  - rewrite <- seq_shift, map_map. apply map_ext. intros k.
    rewrite u32_add_l. f_equal. lia.
Qed.

Lemma seqZ_lt_sorted (a : Z) (n : nat) :
  StronglySorted Z.lt (map (fun k : nat => a + Z.of_nat k) (seq 0 n)).
Proof.
  revert a. induction n as [|n IH]; intros a; simpl; constructor.
  - rewrite <- seq_shift, map_map.
    erewrite map_ext; [apply (IH (a + 1))|]. intros k. simpl. lia.
  - apply List.Forall_forall. intros x Hx. apply in_map_iff in Hx.
    destruct Hx as (k & <- & Hk). apply in_seq in Hk. lia.
Qed.

(** After 2^32 - 1 calls the counter is 0: the call that follows returns
    the id 0. *)
Lemma OpenStream_ids_wrap sesh (k : nat) :
  nextStreamID sesh = 1 ->
  Z.of_nat k = 2 ^ 32 - 1 ->
  (OpenStream_ids (S k) sesh).1 <> map Z.of_nat (seq 1 (S k)).
Proof.
  intros Hnext Hk. rewrite OpenStream_ids_formula, Hnext.
  rewrite !seq_S, !map_app. cbn [map]. intros Heq.
  apply app_inj_tail in Heq as [_ Heq].
  unfold u32 in Heq. rewrite Nat.add_0_l, Nat2Z.inj_add, Hk in Heq.
  replace (1 + (2 ^ 32 - 1)) with (1 * 2 ^ 32) in Heq by lia.
  rewrite Z.mod_mul in Heq by lia.
  change (Z.of_nat 1) with 1 in Heq. lia.
Qed.

End SessionFacts.

Section SessionProperties.
Context {Conn : Type}.
Implicit Types (sesh : Session Conn).

(** C1 (as the code has it).  On a session built by [MakeSession], with or
    without streams opened on it, the first call of [Close] does not return:
    [closing] is set, then [close(sesh.die)] panics on the nil channel that
    [MakeSession] left in [die].  The stream table keeps its entries and no
    [closeNoDelMap] is started.  Every later call returns the
    repeated-closing error. *)
Theorem C1_Close_panics_after_MakeSession
    (sid : Z) (conn : Conn) (o : Frame -> string) (d : string -> option Frame)
    (r : Conn -> string -> Z * option error) :
  let fresh := MakeSession sid conn o d r in
  let opened := (OpenStream fresh).2 in
  Close fresh = (Panic "close of nil channel", [], set_closing true fresh) /\
  Close opened = (Panic "close of nil channel", [], set_closing true opened) /\
  streams (Close opened).2 = {[ 1 := mkStream 1 0 false "" ]} /\
  die (Close opened).2 = NilChan /\
  Close (Close opened).2 =
    (Ret (Some errRepeatSessionClosing), [], (Close opened).2).
Proof.
  intros fresh opened. repeat split.
Qed.

(** On a session whose [die] channel was made and has been closed, the
    [select] of [AcceptStream] has a ready case, so the call does not block,
    and the broken-session error is one of its returns.  The cases have no
    priority: a stream pending in the accept queue is a return as well.
    Every return is one of the two, and with the queue empty and open the
    error is the only one.  No session built by [MakeSession] gets here,
    its [die] being nil. *)
Lemma AcceptStream_after_die_select sesh :
  is_closed (die sesh) = true ->
  (exists sesh', ((None, Some errBrokenSession), sesh') ∈ AcceptStream sesh) /\
  (forall cap stream buf cl,
     acceptCh sesh = MkChan cap (stream :: buf) cl ->
     ((Some stream, None), set_acceptCh (MkChan cap buf cl) sesh)
       ∈ AcceptStream sesh) /\
  (forall out, out ∈ AcceptStream sesh ->
     out.1 = (None, Some errBrokenSession) \/
     exists v c, recv (acceptCh sesh) = Some (v, c) /\
                 out = ((v, None), set_acceptCh c sesh)) /\
  (forall n, acceptCh sesh = MkChan n [] false ->
     forall out, out ∈ AcceptStream sesh ->
       out.1 = (None, Some errBrokenSession)).
Proof.
  intros Hd. unfold AcceptStream.
  destruct (die sesh) as [|n buf cl] eqn:Ed; [done|].
  simpl in Hd. subst cl.
  assert (exists x d', recv (MkChan n buf true) = Some (x, d')) as (x & d' & ->).
  { destruct buf; simpl; eauto. }
  split; [|split; [|split]].
  - exists (set_die d' sesh). apply elem_of_app. left. apply list_elem_of_singleton.
    reflexivity.
  - intros cap stream q cl Ha. rewrite Ha. apply elem_of_app. right.
    apply list_elem_of_singleton. reflexivity.
  - intros out Hout. apply elem_of_app in Hout as [Hout|Hout].
    + apply list_elem_of_singleton in Hout. subst out. by left.
    + destruct (recv (acceptCh sesh)) as [[v c]|] eqn:Er.
      * apply list_elem_of_singleton in Hout. subst out. right. eauto.
      * by apply elem_of_nil in Hout.
  - intros k Ha out Hout. rewrite Ha in Hout. simpl in Hout.
    apply list_elem_of_singleton in Hout. by subst out.
Qed.


(** C3 (amended).  For every [n] below 2^32, [n] calls of [OpenStream] one
    after the other on a session just built by [MakeSession] return the ids
    1, 2, ..., n: strictly increasing and pairwise distinct. *)
Theorem C3_OpenStream_ids_below_wrap
    (sid : Z) (conn : Conn) (o : Frame -> string) (d : string -> option Frame)
    (r : Conn -> string -> Z * option error) (n : nat) :
  Z.of_nat n < 2 ^ 32 ->
  let ids := (OpenStream_ids n (MakeSession sid conn o d r)).1 in
  ids = map Z.of_nat (seq 1 n) /\
  StronglySorted Z.lt ids /\
  NoDup ids.
Proof.
  intros Hn ids.
  assert (Hids : ids = map (fun k : nat => 1 + Z.of_nat k) (seq 0 n)).
  { subst ids. rewrite OpenStream_ids_formula.
    change (nextStreamID (MakeSession sid conn o d r)) with 1.
    apply map_ext_in. intros k Hk. apply in_seq in Hk.
    apply u32_small. lia. }
  split; [|split].
  - rewrite Hids, <- seq_shift, map_map. apply map_ext. intros k. lia.
  - rewrite Hids. apply seqZ_lt_sorted.
  - rewrite Hids.
    change (NoDup ((fun k : nat => 1 + Z.of_nat k) <$> seq 0 n)).
    apply NoDup_fmap_2; [|apply NoDup_seq].
    intros a b Hab. lia.
Qed.

(** [addStream] is the log line, the insertion into the table and then
    the send with what follows it. *)
Lemma addStream_resume_eq sesh (sid : Z) :
  addStream sid sesh =
  ((addStream_resume (makeStream Conn sid sesh)
      (set_streams (<[sid := makeStream Conn sid sesh]> (streams sesh)) sesh)).1,
   [EvLogPrintf "Adding stream %v" sid],
   (addStream_resume (makeStream Conn sid sesh)
      (set_streams (<[sid := makeStream Conn sid sesh]> (streams sesh)) sesh)).2).
Proof. unfold addStream, addStream_resume. by destruct (send _ _). Qed.

(** C6 (amended).  With the accept queue as [MakeSession] made it (capacity
    1024, open): [addStream] logs, puts the new stream into the table and
    sends it on the queue.  While fewer than 1024 streams are pending the
    send completes and the stream is at the tail of the queue.  With 1024
    pending the send blocks: the stream is in the table and the queue is as
    it was.  [AcceptStream] can then take the oldest pending stream, and
    whenever it has done so the parked send completes: [addStream] returns
    the stream, which is at the tail of the queue behind the 1023 that were
    pending before it.  Nothing is dropped. *)
Theorem C6_addStream_accept_queue sesh (sid : Z) (buf : list Stream) :
  acceptCh sesh = MkChan acceptBacklog buf false ->
  let stream := makeStream Conn sid sesh in
  let inserted := set_streams (<[sid := stream]> (streams sesh)) sesh in
  ((length buf < acceptBacklog)%nat ->
     addStream sid sesh =
     (Ret stream, [EvLogPrintf "Adding stream %v" sid],
      set_acceptCh (MkChan acceptBacklog (buf ++ [stream]) false) inserted)) /\
  (length buf = acceptBacklog ->
     addStream sid sesh =
       (Block, [EvLogPrintf "Adding stream %v" sid], inserted) /\
     getStream sid inserted = Some stream /\
     acceptCh inserted = MkChan acceptBacklog buf false /\
     (exists oldest rest,
        buf = oldest :: rest /\
        In ((Some oldest, None),
            set_acceptCh (MkChan acceptBacklog rest false) inserted)
           (AcceptStream inserted)) /\
     (forall out oldest,
        In out (AcceptStream inserted) -> out.1 = (Some oldest, None) ->
        exists rest,
          buf = oldest :: rest /\
          out.2 = set_acceptCh (MkChan acceptBacklog rest false) inserted /\
          addStream_resume stream out.2 =
            (Ret stream,
             set_acceptCh (MkChan acceptBacklog (rest ++ [stream]) false)
                          inserted))).
Proof.
  intros Ha stream inserted.
  assert (Hai : acceptCh inserted = MkChan acceptBacklog buf false) by exact Ha.
  split; intros Hlen.
  - unfold addStream. fold stream. fold inserted. rewrite Hai. unfold send.
    apply Nat.ltb_lt in Hlen. by rewrite Hlen.
  - split; [|split; [|split; [done|]]].
    + unfold addStream. fold stream. fold inserted. rewrite Hai. unfold send.
      assert ((length buf <? acceptBacklog)%nat = false) as ->; [|done].
      apply Nat.ltb_ge. lia.
    + unfold getStream, inserted. cbn [streams set_streams].
      apply lookup_insert_eq.
    + destruct buf as [|oldest rest]; [discriminate Hlen|].
      assert (Hresume : addStream_resume stream
                (set_acceptCh (MkChan acceptBacklog rest false) inserted) =
              (Ret stream,
               set_acceptCh (MkChan acceptBacklog (rest ++ [stream]) false)
                            inserted)).
      { unfold addStream_resume.
        change (acceptCh (set_acceptCh ?c inserted)) with c. unfold send.
        assert ((length rest <? acceptBacklog)%nat = true) as ->.
        { apply Nat.ltb_lt. simpl in Hlen. lia. }
        reflexivity. }
      split.
      * exists oldest, rest. split; [done|].
        unfold AcceptStream. rewrite Hai. apply in_or_app. right. by left.
      * intros out oldest' Hin Hout. exists rest.
        unfold AcceptStream in Hin. rewrite Hai in Hin.
        apply in_app_or in Hin as [Hin|Hin].
        -- destruct (recv (die inserted)) as [[u dd]|]; [|done].
           destruct Hin as [<-|[]]. discriminate Hout.
        -- destruct Hin as [<-|[]]. cbn [fst snd] in *.
           injection Hout as <-. by split.
Qed.

(** C8 (amended).  [OpenStream] returns a stream and no error, starts
    nothing and logs nothing; the id is the counter before the call; the
    session it leaves differs from the one it found in two fields only: the
    counter is one more modulo 2^32, and the table binds the id to the
    returned stream, which is a new entry when the id was not bound and
    replaces the entry otherwise. *)
Theorem C8_OpenStream_frame sesh :
  exists stream,
    stream_id stream = u32 (nextStreamID sesh) /\
    OpenStream sesh =
      ((Some stream, None), [],
       mkSession Conn (id sesh) (obfs sesh) (deobfs sesh) (obfsedReader sesh)
                 (u32 (nextStreamID sesh + 1))
                 (<[stream_id stream := stream]> (streams sesh))
                 (sb sesh) (acceptCh sesh) (closeQCh sesh) (die sesh)
                 (closing sesh)) /\
    (streams sesh !! stream_id stream = None ->
       size (streams (OpenStream sesh).2) = S (size (streams sesh))) /\
    (is_Some (streams sesh !! stream_id stream) ->
       size (streams (OpenStream sesh).2) = size (streams sesh)).
Proof.
  exists (makeStream Conn (u32 (nextStreamID sesh)) sesh).
  unfold OpenStream, makeStream. cbn [stream_id snd streams set_streams].
  rewrite u32_succ_pred. split; [done|]. split; [done|]. split.
  - intros Hnone. by apply map_size_insert_None.
  - intros [st Hsome]. by eapply map_size_insert_Some.
Qed.

End SessionProperties.

(** *** The session properties at concrete sessions *)

(** A session whose [die] was made, on which the peer opened stream 7
    before [Close]: the error is a return of [AcceptStream], and so is the
    stream. *)
Example AcceptStream_after_die_select_example :
  is_closed (die pending_closed_session) = true /\
  (exists sesh',
     ((None, Some errBrokenSession), sesh') ∈ AcceptStream pending_closed_session) /\
  ((Some (mkStream 7 0 false ""), None),
   set_acceptCh (MkChan acceptBacklog [] false) pending_closed_session)
    ∈ AcceptStream pending_closed_session.
Proof.
  split; [reflexivity|].
  destruct (AcceptStream_after_die_select pending_closed_session)
    as (Herr & Hstream & _); [reflexivity|].
  split; [exact Herr|].
  apply (Hstream acceptBacklog (mkStream 7 0 false "") [] false). reflexivity.
Defined.

(** C3, witness: three calls. *)
Lemma C3_OpenStream_ids_below_wrap_witness :
  Z.of_nat 3 < 2 ^ 32 /\
  (OpenStream_ids 3 demo_session).1 = [1; 2; 3].
Proof.
  split; [lia|].
  apply (C3_OpenStream_ids_below_wrap 0 tt Payload
           (fun b => Some (mkFrame 0 0 0 b))
           (fun _ b => (Z.of_nat (String.length b), None)) 3%nat).
  lia.
Defined.

(** C3 as stated fails at n = 2^32: the last of 2^32 calls returns the id 0
    (the counter has wrapped), not 2^32. *)
Lemma C3_counterexample :
  (OpenStream_ids (Z.to_nat (2 ^ 32)) demo_session).1 <>
  map Z.of_nat (seq 1 (Z.to_nat (2 ^ 32))).
Proof.
  assert (HS : Z.to_nat (2 ^ 32) = S (Z.to_nat (2 ^ 32 - 1))).
  { rewrite <- Z2Nat.inj_succ; [|discriminate]. f_equal. }
  rewrite HS. apply OpenStream_ids_wrap; [reflexivity|].
  apply Z2Nat.id. discriminate.
Qed.

(** C6, witness: the first stream the peer opens on a new session is
    queued at once; a stream that arrives when 1024 are pending blocks, and
    is queued behind the other 1023 once stream 1 has been accepted. *)
Lemma C6_addStream_accept_queue_witness :
  acceptCh demo_session = MkChan acceptBacklog [] false /\
  addStream 5 demo_session =
  (Ret (mkStream 5 0 false ""), [EvLogPrintf "Adding stream %v" 5],
   set_acceptCh (MkChan acceptBacklog [mkStream 5 0 false ""] false)
     (set_streams {[ 5 := mkStream 5 0 false "" ]} demo_session)) /\
  acceptCh full_session =
    MkChan acceptBacklog (buffered (acceptCh full_session)) false /\
  length (buffered (acceptCh full_session)) = acceptBacklog /\
  (addStream 5000 full_session).1.1 = Block /\
  exists rest,
    buffered (acceptCh full_session) = mkStream 1 0 false "" :: rest /\
    buffered
      (acceptCh
         (addStream_resume (mkStream 5000 0 false "")
            (set_acceptCh (MkChan acceptBacklog rest false)
                          (addStream 5000 full_session).2)).2)
    = rest ++ [mkStream 5000 0 false ""].
Proof.
  split; [reflexivity|]. split.
  { apply (C6_addStream_accept_queue demo_session 5 []); [reflexivity|].
    unfold acceptBacklog. simpl. lia. }
  assert (Hq : acceptCh full_session =
               MkChan acceptBacklog (buffered (acceptCh full_session)) false)
    by (vm_compute; reflexivity).
  assert (Hlen : length (buffered (acceptCh full_session)) = acceptBacklog)
    by (vm_compute; reflexivity).
  assert (Hhd : head (buffered (acceptCh full_session)) =
                Some (mkStream 1 0 false "")) by (vm_compute; reflexivity).
  split; [exact Hq|]. split; [exact Hlen|].
  destruct (C6_addStream_accept_queue full_session 5000 _ Hq) as [_ Hfull].
  destruct (Hfull Hlen)
    as (Hblock & _ & _ & (oldest & rest & Hbuf & Hin) & Hwake).
  split; [rewrite Hblock; reflexivity|].
  destruct (Hwake _ oldest Hin eq_refl) as (rest' & Hbuf' & _ & Hresume).
  assert (Hold : oldest = mkStream 1 0 false "").
  { clear -Hbuf Hhd. rewrite Hbuf in Hhd. cbn [head] in Hhd.
    injection Hhd as Hhd. exact Hhd. }
  assert (Hrest : rest' = rest).
  { clear -Hbuf Hbuf'. rewrite Hbuf in Hbuf'.
    injection Hbuf' as Hr. symmetry. exact Hr. }
  subst rest'.
  exists rest. split.
  { clear -Hbuf Hold. rewrite Hbuf, Hold. reflexivity. }
  cbn [snd] in Hresume.
  assert (Hst : (addStream 5000 full_session).2 =
    set_streams (<[5000 := makeStream unit 5000 full_session]>
                   (streams full_session))
                full_session).
  { clear -Hblock. rewrite Hblock. reflexivity. }
  clear -Hst Hresume.
  rewrite Hst. unfold makeStream in Hresume |- *. rewrite Hresume.
  reflexivity.
Defined.

(** C6 as stated fails: with 1024 streams pending, a frame for the unknown
    stream 5000 makes [addStream] block at the send; the stream is in the
    table, nothing was dropped. *)
Lemma C6_counterexample :
  len (acceptCh full_session) = 1024%nat /\
  streams full_session !! 5000 = None /\
  (addStream 5000 full_session).1.1 = Block /\
  streams (addStream 5000 full_session).2 !! 5000 = Some (mkStream 5000 0 false "") /\
  len (acceptCh (addStream 5000 full_session).2) = 1024%nat.
Proof. vm_compute. repeat split. Qed.

(** C8 as stated fails: the peer has opened stream 1, then the first local
    [OpenStream] hands out the id 1 as well; the table has one entry before
    the call and one entry after it. *)
Lemma C8_counterexample :
  isStream 1 peer_opened_session = true /\
  size (streams peer_opened_session) = 1%nat /\
  stream_id <$> (OpenStream peer_opened_session).1.1.1 = Some 1 /\
  size (streams (OpenStream peer_opened_session).2) = 1%nat.
Proof. vm_compute. repeat split. Qed.


(** * Properties of the configuration parser *)

Import Strings Client.

Section StringFacts.
Implicit Types (s t cur : string) (c : ascii).

Lemma string_app_cons c s t : String c s +:+ t = String c (s +:+ t).
Proof. reflexivity. Qed.

Lemma string_app_nil_l s : "" +:+ s = s.
Proof. reflexivity. Qed.

Lemma string_app_assoc s t u : (s +:+ t) +:+ u = s +:+ (t +:+ u).
Proof.
  induction s as [|a s IH]; [done|].
  by rewrite !string_app_cons, IH.
Qed.

Lemma string_app_nil_r s : s +:+ "" = s.
Proof.
  induction s as [|a s IH]; [done|]. by rewrite string_app_cons, IH.
Qed.

Lemma string_length_app s t :
  String.length (s +:+ t) = (String.length s + String.length t)%nat.
Proof.
  induction s as [|a s IH]; [done|].
  rewrite string_app_cons. simpl. by rewrite IH.
Qed.

Lemma chars_app s t : chars (s +:+ t) = chars s ++ chars t.
Proof.
  induction s as [|a s IH]; [done|].
  rewrite string_app_cons. unfold chars in *. simpl. by rewrite IH.
Qed.

Lemma take_app s t : take (String.length s) (s +:+ t) = s.
Proof.
  induction s as [|a s IH]; [by destruct t|].
  rewrite string_app_cons. simpl. by rewrite IH.
Qed.

(** Dropping the last byte of a text that ends in a comma. *)
Lemma take_trailing_comma s :
  take (String.length (s +:+ ",") - 1) (s +:+ ",") = s.
Proof.
  rewrite string_length_app. simpl.
  replace (String.length s + 1 - 1)%nat with (String.length s) by lia.
  apply take_app.
Qed.

Lemma prefix_head_ne c d s t :
  c <> d -> String.prefix (String c s) (String d t) = false.
Proof. intros Hne. simpl. by destruct (ascii_dec c d). Qed.

Lemma prefix_head_eq c s t :
  String.prefix (String c s) (String c t) = String.prefix s t.
Proof. simpl. by destruct (ascii_dec c c). Qed.

Lemma prefix_nil s : String.prefix "" s = true.
Proof. by destruct s. Qed.

(** [strings.Contains] with a one-byte pattern is membership of the byte. *)
Lemma Contains_char s c :
  Contains s (String c "") = true <-> In c (chars s).
Proof.
  induction s as [|a s IH].
  - simpl. split; [discriminate | tauto].
  - unfold chars in *.
    cbn [Contains list_ascii_of_string In]. rewrite orb_true_iff, IH.
    destruct (ascii_dec c a) as [->|Hne].
    + rewrite prefix_head_eq, prefix_nil. tauto.
    + rewrite prefix_head_ne by done. split.
      * intros [?|?]; [discriminate | tauto].
      * intros [?|?]; [congruence | tauto].
Qed.

Lemma Contains_char_false s c :
  Contains s (String c "") = false <-> ~ In c (chars s).
Proof.
  rewrite <- Contains_char. destruct (Contains s (String c "")); split;
    congruence.
Qed.

Lemma not_in_chars_cons c a s :
  ~ In c (chars (String a s)) -> c <> a /\ ~ In c (chars s).
Proof.
  unfold chars. simpl. intros Hnin. split.
  - intros ->. apply Hnin. by left.
  - intros Hin. apply Hnin. by right.
Qed.

(** A pattern whose first byte does not occur is never found. *)
Lemma replace_go_absent c old new s :
  ~ In c (chars s) -> replace_go (String c old) new 0 s = s.
Proof.
  induction s as [|a s IH]; intros Hnin; [done|].
  apply not_in_chars_cons in Hnin as [Hne Hnin].
  cbn [replace_go]. rewrite prefix_head_ne by done. by rewrite IH.
Qed.

(** Without a backslash there is nothing to unescape. *)
Lemma unescape_plain s : ~ In "\"%char (chars s) -> unescape s = s.
Proof.
  intros Hnin. unfold unescape, Replace. cbv beta iota zeta.
  by rewrite !(replace_go_absent _ _ _ _ Hnin).
Qed.

(** When one piece is left, the scan takes the rest as it is. *)
Lemma split_go_limit sep cur s : split_go sep 1 0 cur s = [cur +:+ s].
Proof.
  revert cur. induction s as [|a s IH]; intros cur.
  - simpl. by rewrite string_app_nil_r.
  - cbn [split_go Z.eqb Pos.eqb negb andb].
    by rewrite IH, string_app_assoc, string_app_cons, string_app_nil_l.
Qed.

Lemma split_go_no_sep c n cur s :
  ~ In c (chars s) -> split_go (String c "") n 0 cur s = [cur +:+ s].
Proof.
  revert cur. induction s as [|a s IH]; intros cur Hnin.
  - simpl. by rewrite string_app_nil_r.
  - apply not_in_chars_cons in Hnin as [Hne Hnin].
    cbn [split_go]. rewrite prefix_head_ne, andb_false_r by done.
    by rewrite IH, string_app_assoc, string_app_cons, string_app_nil_l.
Qed.

Lemma split_go_cut c n cur s rest :
  n <> 1%Z -> ~ In c (chars s) ->
  split_go (String c "") n 0 cur (s +:+ String c rest) =
  (cur +:+ s) :: split_go (String c "") (n - 1) 0 "" rest.
Proof.
  intros Hn. revert cur. induction s as [|a s IH]; intros cur Hnin.
  - rewrite string_app_nil_l. cbn [split_go].
    rewrite prefix_head_eq, prefix_nil.
    assert ((n =? 1)%Z = false) as -> by by apply Z.eqb_neq.
    simpl. by rewrite string_app_nil_r.
  - apply not_in_chars_cons in Hnin as [Hne Hnin].
    rewrite string_app_cons. cbn [split_go].
    rewrite prefix_head_ne, andb_false_r by done.
    by rewrite IH, string_app_assoc, string_app_cons, string_app_nil_l.
Qed.

(** [strings.Split] takes the joined lines apart again. *)
Lemma split_go_concat c (n : Z) (l : string) (ls : list string) :
  (n < 0)%Z -> Forall (fun x => ~ In c (chars x)) (l :: ls) ->
  split_go (String c "") n 0 "" (String.concat (String c "") (l :: ls)) = l :: ls.
Proof.
  revert n l. induction ls as [|l' ls IH]; intros n l Hn Hall.
  - simpl. apply split_go_no_sep. by inversion Hall.
  - cbn [String.concat]. rewrite string_app_cons, string_app_nil_l.
    inversion Hall as [|? ? Hl Hls]; subst.
    rewrite split_go_cut by (done || lia). rewrite string_app_nil_l. f_equal.
    apply (IH (n - 1)%Z l'); [lia | done].
Qed.

Lemma split_go_concat_trailing c (n : Z) (l : string) (ls : list string) :
  (n < 0)%Z -> Forall (fun x => ~ In c (chars x)) (l :: ls) ->
  split_go (String c "") n 0 ""
           (String.concat (String c "") (l :: ls) +:+ String c "") =
  (l :: ls) ++ [""].
Proof.
  revert n l. induction ls as [|l' ls IH]; intros n l Hn Hall.
  - cbn [String.concat]. inversion Hall; subst.
    rewrite split_go_cut by (done || lia). by rewrite string_app_nil_l.
  - cbn [String.concat]. rewrite string_app_cons, string_app_nil_l.
    rewrite string_app_assoc, string_app_cons.
    inversion Hall as [|? ? Hl Hls]; subst.
    rewrite split_go_cut by (done || lia). rewrite string_app_nil_l.
    cbn [app]. f_equal.
    apply (IH (n - 1)%Z l'); [lia | done].
Qed.

(** [strings.SplitN(ln, "=", 2)] on [key=value]: the key has no [=], the
    value may. *)
Lemma SplitN_entry (k v : string) :
  ~ In "="%char (chars k) -> SplitN (k +:+ "=" +:+ v) "=" 2 = [k; v].
Proof.
  intros Hk. unfold SplitN. cbn [Z.eqb].
  rewrite string_app_cons, string_app_nil_l.
  rewrite split_go_cut by done. rewrite string_app_nil_l.
  by rewrite split_go_limit, string_app_nil_l.
Qed.

End StringFacts.

Section SsvFacts.

Lemma entry_line_nonempty (e : entry) : String.eqb (entry_line e) "" = false.
Proof.
  unfold entry_line. destruct e as [[|a k] v]; reflexivity.
Qed.

(** In an entry line every byte is [=], a byte of the key or a byte of the
    value. *)
Lemma chars_entry_line (e : entry) c :
  In c (chars (entry_line e)) <->
  In c (chars e.1) \/ c = "="%char \/ In c (chars e.2).
Proof.
  unfold entry_line. rewrite !chars_app, !in_app_iff.
  unfold chars at 2. simpl. intuition congruence.
Qed.

Lemma plain_entry_spec (e : entry) :
  plain_entry e ->
  (forall c, In c (chars e.1) ->
     c <> ";"%char /\ c <> "="%char /\ c <> "\"%char) /\
  (forall c, In c (chars e.2) -> c <> ";"%char /\ c <> "\"%char).
Proof.
  intros [Hk Hv]. rewrite List.Forall_forall in Hk, Hv. split; auto.
Qed.

Lemma plain_entry_line (e : entry) :
  plain_entry e ->
  ~ In ";"%char (chars (entry_line e)) /\ ~ In "\"%char (chars (entry_line e)).
Proof.
  intros [Hk Hv]%plain_entry_spec. split; rewrite chars_entry_line.
  - intros [Hin|[Heq|Hin]]; [by apply Hk in Hin as (? & _)| discriminate |
                             by apply Hv in Hin as (? & _)].
  - intros [Hin|[Heq|Hin]]; [by apply Hk in Hin as (_ & _ & ?)| discriminate |
                             by apply Hv in Hin as (_ & ?)].
Qed.

(** The bytes of the joined lines: [;] and the bytes of the lines. *)
Lemma chars_concat_semicolon (ls : list string) c :
  In c (chars (String.concat ";" ls)) ->
  c = ";"%char \/ exists l, In l ls /\ In c (chars l).
Proof.
  induction ls as [|l ls IH]; [done|].
  destruct ls as [|l' ls].
  - simpl. intros Hin. right. exists l. auto.
  - change (String.concat ";" (l :: l' :: ls))
      with (l +:+ ";" +:+ String.concat ";" (l' :: ls)).
    rewrite !chars_app, !in_app_iff. intros [Hin|[Hin|Hin]].
    + right. exists l. split; [by left | done].
    + left. unfold chars in Hin. simpl in Hin. intuition.
    + apply IH in Hin as [?|(x & Hx & Hc)]; [by left|].
      right. exists x. split; [by right | done].
Qed.

(** The loop of [ssvToJson] over the lines of plain entries, up to the end
    of the lines or to an empty line: one JSON member and a comma each. *)
Lemma ssv_loop_entries (cfg : list entry) (rest : list string) (ret : string) :
  Forall plain_entry cfg ->
  rest = [] \/ (exists r, rest = "" :: r) ->
  ssv_loop (map entry_line cfg ++ rest) ret =
  Ret (ret +:+ String.concat "" (map (fun e => json_member e +:+ ",") cfg)).
Proof.
  intros Hall Hrest. revert ret.
  induction Hall as [|e cfg He Hall IH]; intros ret.
  - simpl. rewrite string_app_nil_r.
    destruct Hrest as [->|[r ->]]; reflexivity.
  - cbn [map app ssv_loop]. rewrite entry_line_nonempty.
    destruct e as [k v]. apply plain_entry_spec in He as [Hk Hv].
    cbn [fst snd] in *.
    assert (Hsp : SplitN (entry_line (k, v)) "=" 2 = [k; v]).
    { apply SplitN_entry. intros Hin. by apply Hk in Hin as (_ & ? & _). }
    rewrite !Hsp.
    change ([k; v] !! 0%nat) with (Some k).
    change ([k; v] !! 1%nat) with (Some v). cbv beta iota.
    assert (Hcat : forall m : string,
      String.concat "" (m :: map (fun e => json_member e +:+ ",") cfg) =
      m +:+ String.concat "" (map (fun e => json_member e +:+ ",") cfg)).
    { intros m. destruct cfg; simpl; [by rewrite string_app_nil_r | done]. }
    cbn [map]. rewrite Hcat.
    assert (Hm : json_member (k, v) =
      dq +:+ k +:+ dq +:+ ":" +:+
      (if String.eqb k "TicketTimeHint" || String.eqb k "NumConn"
       then v else dq +:+ v +:+ dq)) by reflexivity.
    rewrite Hm.
    destruct (String.eqb k "TicketTimeHint" || String.eqb k "NumConn");
      rewrite IH; by rewrite !string_app_assoc.
Qed.

(** Members each followed by a comma are the members joined by commas, and
    one more comma. *)
Lemma members_trailing_comma (e : entry) (cfg : list entry) :
  String.concat "" (map (fun e => json_member e +:+ ",") (e :: cfg)) =
  String.concat "," (map json_member (e :: cfg)) +:+ ",".
Proof.
  revert e. induction cfg as [|e' cfg IH]; intros e; [done|].
  change (String.concat "" (map (fun e => json_member e +:+ ",") (e :: e' :: cfg)))
    with ((json_member e +:+ ",") +:+ "" +:+
          String.concat "" (map (fun e => json_member e +:+ ",") (e' :: cfg))).
  change (String.concat "," (map json_member (e :: e' :: cfg)))
    with (json_member e +:+ "," +:+ String.concat "," (map json_member (e' :: cfg))).
  rewrite IH, string_app_nil_l. by rewrite !string_app_assoc.
Qed.

(** The refinement behind C4: on the single-line form of plain entries, with
    or without a [;] after the last one, [ssvToJson] returns the JSON
    document of section 6. *)
Lemma ssvToJson_single_line (cfg : list entry) (trailing : bool) :
  cfg <> [] -> Forall plain_entry cfg ->
  ssvToJson (single_line cfg +:+ (if trailing then ";" else "")) =
  Ret (json_document cfg).
Proof.
  intros Hne Hall. destruct cfg as [|e cfg]; [done|]. clear Hne.
  assert (Hlines : Forall (fun x => ~ In ";"%char (chars x))
                          (map entry_line (e :: cfg))).
  { apply List.Forall_forall. intros l Hl. apply in_map_iff in Hl as (x & <- & Hx).
    rewrite List.Forall_forall in Hall. by apply plain_entry_line, Hall. }
  assert (Hnb : ~ In "\"%char
      (chars (single_line (e :: cfg) +:+ (if trailing then ";" else "")))).
  { rewrite chars_app, in_app_iff. intros [Hin|Hin].
    - apply chars_concat_semicolon in Hin as [?|(l & Hl & Hc)]; [discriminate|].
      apply in_map_iff in Hl as (x & <- & Hx).
      rewrite List.Forall_forall in Hall.
      by apply (plain_entry_line x (Hall x Hx)).
    - destruct trailing; unfold chars in Hin; simpl in Hin; intuition discriminate. }
  unfold ssvToJson. rewrite (unescape_plain _ Hnb). unfold Split, SplitN.
  cbn [Z.eqb]. unfold single_line.
  assert (Hloop : forall rest, rest = [] \/ (exists r, rest = "" :: r) ->
    match ssv_loop (map entry_line (e :: cfg) ++ rest) "{" with
    | Ret ret =>
        if (String.length ret =? 0)%nat
        then Panic "runtime error: slice bounds out of range [:-1]"
        else Ret (take (String.length ret - 1) ret +:+ "}")
    | Panic msg => Panic msg
    | Block => Block
    end = Ret (json_document (e :: cfg))).
  { intros rest Hrest. rewrite (ssv_loop_entries _ _ _ Hall Hrest).
    rewrite members_trailing_comma, <- string_app_assoc.
    rewrite take_trailing_comma.
    rewrite string_length_app, string_length_app. cbn [String.length].
    unfold json_document. by rewrite string_app_assoc. }
  destruct trailing.
  - change (map entry_line (e :: cfg)) with (entry_line e :: map entry_line cfg) in *.
    rewrite (split_go_concat_trailing ";"%char (-1)) by (lia || done).
    apply Hloop. right. eauto.
  - rewrite string_app_nil_r.
    change (map entry_line (e :: cfg)) with (entry_line e :: map entry_line cfg) in *.
    rewrite (split_go_concat ";"%char (-1)) by (lia || done).
    rewrite <- (app_nil_r (entry_line e :: map entry_line cfg)).
    apply Hloop. by left.
Qed.

(** The single-line form holds a [=]; it holds a [;] when it has two entries
    or more, or ends in one. *)
Lemma single_line_has_equals (cfg : list entry) (t : string) :
  cfg <> [] -> In "="%char (chars (single_line cfg +:+ t)).
Proof.
  destruct cfg as [|e cfg]; [done|]. intros _.
  rewrite chars_app, in_app_iff. left. unfold single_line.
  destruct cfg as [|e' cfg].
  - simpl. apply chars_entry_line. auto.
  - change (String.concat ";" (map entry_line (e :: e' :: cfg)))
      with (entry_line e +:+ ";" +:+ String.concat ";" (map entry_line (e' :: cfg))).
    rewrite chars_app, in_app_iff. left. apply chars_entry_line. auto.
Qed.

Lemma single_line_has_semicolon (cfg : list entry) (trailing : bool) :
  (2 <= length cfg)%nat \/ trailing = true ->
  In ";"%char (chars (single_line cfg +:+ (if trailing then ";" else ""))).
Proof.
  rewrite chars_app, in_app_iff. intros [Hlen| ->].
  - left. destruct cfg as [|e [|e' cfg]]; simpl in Hlen; try lia.
    unfold single_line.
    change (String.concat ";" (map entry_line (e :: e' :: cfg)))
      with (entry_line e +:+ ";" +:+ String.concat ";" (map entry_line (e' :: cfg))).
    rewrite !chars_app, !in_app_iff. right. left. by left.
  - right. by left.
Qed.

End SsvFacts.

Section ParseConfigProperties.
Context `{Ext : Externals}.
Implicit Types (conf content : string) (sta : State) (preParse : rawConfig).

(** [ParseConfig] once the JSON text is decoded and the method is known. *)
Lemma ParseConfig_decoded conf sta content preParse (e : Z) :
  config_content conf = Ret (content, None) ->
  json_Unmarshal content = (preParse, None) ->
  encryptionByte (raw_EncryptionMethod preParse) = Some e ->
  ParseConfig conf sta =
  match base64_DecodeString (raw_UID preParse) with
  | (_, Some err) =>
      (Ret (Some ("Failed to parse UID: " +:+ err)), overwritten e preParse sta)
  | (uid, None) =>
      match base64_DecodeString (raw_PublicKey preParse) with
      | (_, Some err) =>
          (Ret (Some ("Failed to parse Public key: " +:+ err)),
           set_UID uid (overwritten e preParse sta))
      | (pubBytes, None) =>
          match ecdh_Unmarshal pubBytes with
          | (_, false) =>
              (Ret (Some "Failed to unmarshal Public key"),
               set_UID uid (overwritten e preParse sta))
          | (pub, true) =>
              (Ret None, set_staticPub pub (set_UID uid (overwritten e preParse sta)))
          end
      end
  end.
Proof.
  intros Hc Hj He. unfold ParseConfig. rewrite Hc, Hj, He. reflexivity.
Qed.

Lemma ParseConfig_decoded_method conf sta content preParse (e : Z) :
  config_content conf = Ret (content, None) ->
  json_Unmarshal content = (preParse, None) ->
  encryptionByte (raw_EncryptionMethod preParse) = Some e ->
  EncryptionMethod (ParseConfig conf sta).2 = e.
Proof.
  intros Hc Hj He. rewrite (ParseConfig_decoded _ _ _ _ _ Hc Hj He).
  destruct (base64_DecodeString (raw_UID preParse)) as [uid [err|]]; [done|].
  destruct (base64_DecodeString (raw_PublicKey preParse)) as [pb [err|]]; [done|].
  by destruct (ecdh_Unmarshal pb) as [pub [|]].
Qed.

(** For a configuration of plain entries, which need no escape, the
    single-line form (with or without a [;] at its end) and a file holding
    the JSON document of the same entries are parsed alike: [ssvToJson] turns
    the line into that very document, [TicketTimeHint] and [NumConn] without
    quotes and every other value between quotes, and [ParseConfig] returns
    the same result and the same state for both. *)
Lemma single_line_and_json_agree_plain
    (cfg : list entry) (trailing : bool) (path : string) sta :
  cfg <> [] ->
  Forall plain_entry cfg ->
  (2 <= length cfg)%nat \/ trailing = true ->
  Contains path ";" && Contains path "=" = false ->
  ioutil_ReadFile path = (json_document cfg, None) ->
  ssvToJson (single_line cfg +:+ (if trailing then ";" else "")) =
    Ret (json_document cfg) /\
  ParseConfig (single_line cfg +:+ (if trailing then ";" else "")) sta =
    ParseConfig path sta.
Proof.
  intros Hne Hall Hsemi Hpath Hfile.
  pose proof (ssvToJson_single_line cfg trailing Hne Hall) as Hssv.
  split; [done|].
  assert (Hc1 : config_content (single_line cfg +:+ (if trailing then ";" else ""))
                = Ret (json_document cfg, None)).
  { unfold config_content.
    rewrite (proj2 (Contains_char _ _) (single_line_has_semicolon _ _ Hsemi)).
    rewrite (proj2 (Contains_char _ _) (single_line_has_equals _ _ Hne)).
    cbn [andb]. by rewrite Hssv. }
  assert (Hc2 : config_content path = Ret (json_document cfg, None)).
  { unfold config_content. by rewrite Hpath, Hfile. }
  unfold ParseConfig. by rewrite Hc1, Hc2.
Qed.

(** C7.  Once the JSON text is decoded, the method names [plain], [aes] and
    [chacha20-poly1305] put the bytes 0, 1 and 2 into the state, and with
    any other name [ParseConfig] returns the unknown-method error. *)
Theorem C7_EncryptionMethod_mapping conf sta content preParse :
  config_content conf = Ret (content, None) ->
  json_Unmarshal content = (preParse, None) ->
  (raw_EncryptionMethod preParse = "plain" ->
     EncryptionMethod (ParseConfig conf sta).2 = 0) /\
  (raw_EncryptionMethod preParse = "aes" ->
     EncryptionMethod (ParseConfig conf sta).2 = 1) /\
  (raw_EncryptionMethod preParse = "chacha20-poly1305" ->
     EncryptionMethod (ParseConfig conf sta).2 = 2) /\
  (raw_EncryptionMethod preParse <> "plain" ->
   raw_EncryptionMethod preParse <> "aes" ->
   raw_EncryptionMethod preParse <> "chacha20-poly1305" ->
     ParseConfig conf sta = (Ret (Some "Unknown encryption method"), sta)).
Proof.
  intros Hc Hj. repeat split.
  - intros Hm. apply (ParseConfig_decoded_method _ _ _ _ _ Hc Hj).
    by rewrite Hm.
  - intros Hm. apply (ParseConfig_decoded_method _ _ _ _ _ Hc Hj).
    by rewrite Hm.
  - intros Hm. apply (ParseConfig_decoded_method _ _ _ _ _ Hc Hj).
    by rewrite Hm.
  - intros H0 H1 H2. unfold ParseConfig. rewrite Hc, Hj. unfold encryptionByte.
    apply String.eqb_neq in H0, H1, H2. by rewrite H0, H1, H2.
Qed.

(** C9.  A failure before the fields are copied (reading the file,
    decoding the JSON text, an unknown method) leaves the state as it was.
    A failure after it (the UID, the public key) leaves a state in which
    [EncryptionMethod], [ProxyMethod], [ServerName], [TicketTimeHint],
    [BrowserSig] and [NumConn] already hold the new values. *)
Theorem C9_ParseConfig_not_atomic conf sta :
  (forall content err,
     config_content conf = Ret (content, Some err) ->
     ParseConfig conf sta = (Ret (Some err), sta)) /\
  (forall content preParse err,
     config_content conf = Ret (content, None) ->
     json_Unmarshal content = (preParse, Some err) ->
     ParseConfig conf sta = (Ret (Some err), sta)) /\
  (forall content preParse,
     config_content conf = Ret (content, None) ->
     json_Unmarshal content = (preParse, None) ->
     encryptionByte (raw_EncryptionMethod preParse) = None ->
     ParseConfig conf sta = (Ret (Some "Unknown encryption method"), sta)) /\
  (forall content preParse e,
     config_content conf = Ret (content, None) ->
     json_Unmarshal content = (preParse, None) ->
     encryptionByte (raw_EncryptionMethod preParse) = Some e ->
     (forall uid err,
        base64_DecodeString (raw_UID preParse) = (uid, Some err) ->
        ParseConfig conf sta =
        (Ret (Some ("Failed to parse UID: " +:+ err)),
         overwritten e preParse sta)) /\
     (forall uid pubBytes err,
        base64_DecodeString (raw_UID preParse) = (uid, None) ->
        base64_DecodeString (raw_PublicKey preParse) = (pubBytes, Some err) ->
        ParseConfig conf sta =
        (Ret (Some ("Failed to parse Public key: " +:+ err)),
         set_UID uid (overwritten e preParse sta))) /\
     (forall uid pubBytes pub,
        base64_DecodeString (raw_UID preParse) = (uid, None) ->
        base64_DecodeString (raw_PublicKey preParse) = (pubBytes, None) ->
        ecdh_Unmarshal pubBytes = (pub, false) ->
        ParseConfig conf sta =
        (Ret (Some "Failed to unmarshal Public key"),
         set_UID uid (overwritten e preParse sta)))).
Proof.
  split; [|split; [|split]].
  - intros content err Hc. unfold ParseConfig. by rewrite Hc.
  - intros content preParse err Hc Hj. unfold ParseConfig. by rewrite Hc, Hj.
  - intros content preParse Hc Hj He. unfold ParseConfig. by rewrite Hc, Hj, He.
  - intros content preParse e Hc Hj He.
    rewrite (ParseConfig_decoded _ sta _ _ _ Hc Hj He).
    split; [|split].
    + intros uid err Hu. by rewrite Hu.
    + intros uid pb err Hu Hp. by rewrite Hu, Hp.
    + intros uid pb pub Hu Hp Hk. by rewrite Hu, Hp, Hk.
Qed.

(** C10.  The argument is taken for the single-line form exactly when it
    holds a [;] and a [=]: then the JSON text is what [ssvToJson] makes of
    it (and a panic of [ssvToJson] is a panic of [ParseConfig]); otherwise
    the argument is the name of the file that is read (and the error of the
    read is the error of [ParseConfig]). *)
Theorem C10_inline_iff_semicolon_and_equals conf sta :
  (In ";"%char (chars conf) /\ In "="%char (chars conf) ->
     config_content conf =
       match ssvToJson conf with
       | Ret content => Ret (content, None)
       | Panic msg => Panic msg
       | Block => Block
       end /\
     (forall msg, ssvToJson conf = Panic msg ->
        ParseConfig conf sta = (Panic msg, sta))) /\
  (~ (In ";"%char (chars conf) /\ In "="%char (chars conf)) ->
     config_content conf = Ret (ioutil_ReadFile conf) /\
     (forall content err, ioutil_ReadFile conf = (content, Some err) ->
        ParseConfig conf sta = (Ret (Some err), sta))).
Proof.
  split.
  - intros [Hs He]. apply Contains_char in Hs, He.
    assert (Hc : config_content conf =
       match ssvToJson conf with
       | Ret content => Ret (content, None)
       | Panic msg => Panic msg
       | Block => Block
       end).
    { unfold config_content. by rewrite Hs, He. }
    split; [done|]. intros msg Hp. unfold ParseConfig. by rewrite Hc, Hp.
  - intros Hnot.
    assert (Hc : config_content conf = Ret (ioutil_ReadFile conf)).
    { unfold config_content.
      destruct (Contains conf ";") eqn:Hs; [|done].
      destruct (Contains conf "=") eqn:He; [|done].
      exfalso. apply Hnot. split; by apply Contains_char. }
    split; [done|]. intros content err Hr. unfold ParseConfig.
    by rewrite Hc, Hr.
Qed.

End ParseConfigProperties.

(** C4 (as the code has it).  The configuration of scenario S1 with the
    browser signature [a;b]: the file holding its JSON document is parsed
    to the end and the signature arrives in the state, whereas on its
    single-line form, the [;] escaped, [ssvToJson] cuts the entry in two at
    the unescaped [;], finds no [=] in the second half and panics. *)
Theorem C4_escaped_semicolon_breaks_single_line :
  escaped_single_line cfg_semicolon =
    "ServerName=www.example.com;ProxyMethod=shadowsocks;EncryptionMethod=aes;UID=AAAAAAAAAAAAAAAAAAAAAA\=\=;PublicKey=AAAAAAAAAAAAAAAAAAAAAAAAAAAAAAAAAAAAAAAAAAA\=;TicketTimeHint=3600;BrowserSig=a\;b;NumConn=4" /\
  (ParseConfig (Ext := demo_externals) "semicolon.json" demo_state).1 = Ret None /\
  BrowserSig (ParseConfig (Ext := demo_externals) "semicolon.json" demo_state).2
    = "a;b" /\
  ssvToJson (escaped_single_line cfg_semicolon) =
    Panic "runtime error: index out of range [1] with length 1" /\
  ParseConfig (Ext := demo_externals) (escaped_single_line cfg_semicolon)
              demo_state =
    (Panic "runtime error: index out of range [1] with length 1", demo_state).
Proof. repeat split. Qed.

(** Whatever stands for the outside world, a single-line form with an
    escaped [;] in a value makes [ParseConfig] panic, which it never does on
    the name of a file. *)
Lemma ParseConfig_escaped_semicolon_panics `{Ext : Externals} (sta : State) :
  ParseConfig "BrowserSig=a\;b;NumConn=4" sta =
    (Panic "runtime error: index out of range [1] with length 1", sta).
Proof. reflexivity. Qed.

Lemma ParseConfig_file_never_panics `{Ext : Externals}
    (path : string) (sta : State) :
  Contains path ";" && Contains path "=" = false ->
  forall msg sta', ParseConfig path sta <> (Panic msg, sta').
Proof.
  intros Hpath msg sta'. unfold ParseConfig, config_content. rewrite Hpath.
  destruct (ioutil_ReadFile path) as [content [err|]]; [done|].
  destruct (json_Unmarshal content) as [preParse [err|]]; [done|].
  destruct (encryptionByte _); [|done].
  destruct (base64_DecodeString (raw_UID preParse)) as [uid [err|]]; [done|].
  destruct (base64_DecodeString (raw_PublicKey preParse)) as [pb [err|]]; [done|].
  by destruct (ecdh_Unmarshal pb) as [pub [|]].
Qed.

(** C5 (as the code has it).  The three replacements run over the whole
    argument before it is cut at [;]: the escaped [;] of [Key=a\;b\=c\\d] has
    become a plain [;] by then and ends the entry.  The key [Key] gets the
    value [a], and a second key [b] gets the value [c\d]. *)
Theorem C5_ssvToJson_escaped_value :
  unescape "Key=a\;b\=c\\d" = "Key=a;b=c\d" /\
  Split (unescape "Key=a\;b\=c\\d") ";" = ["Key=a"; "b=c\d"] /\
  ssvToJson "Key=a\;b\=c\\d" =
    Ret (json_document [("Key", "a"); ("b", "c\d")]) /\
  ssvToJson "Key=a\;b\=c\\d" <> Ret (json_document [("Key", "a;b=c\d")]).
Proof. repeat split. discriminate. Qed.

(** *** The parser properties at concrete configurations *)

(** Scenario S1: the line of the eight entries and the file
    [ckclient.json] holding their JSON document give the same state, with
    the encryption byte 1. *)
Example scenario_S1_agrees :
  ssvToJson (single_line cfg_S1) = Ret (json_document cfg_S1) /\
  ParseConfig (Ext := demo_externals) (single_line cfg_S1) demo_state =
    ParseConfig (Ext := demo_externals) "ckclient.json" demo_state /\
  EncryptionMethod
    (ParseConfig (Ext := demo_externals) (single_line cfg_S1) demo_state).2 = 1.
Proof.
  assert (Hplain : Forall plain_entry cfg_S1).
  { apply (bool_decide_unpack _). vm_compute. exact I. }
  destruct (single_line_and_json_agree_plain (Ext := demo_externals)
              cfg_S1 false "ckclient.json" demo_state)
    as [Hssv Hparse].
  - discriminate.
  - exact Hplain.
  - left. vm_compute. lia.
  - reflexivity.
  - reflexivity.
  - rewrite string_app_nil_r in Hssv, Hparse. split; [exact Hssv|].
    split; [exact Hparse|]. reflexivity.
Defined.

(** C7, witness: scenario S2 (with the [;] that makes it a single-line
    form), and scenario S1 for a known method. *)
Lemma C7_EncryptionMethod_mapping_witness :
  ParseConfig (Ext := demo_externals) "EncryptionMethod=blowfish;" demo_state =
    (Ret (Some "Unknown encryption method"), demo_state) /\
  EncryptionMethod
    (ParseConfig (Ext := demo_externals) "ckclient.json" demo_state).2 = 1.
Proof.
  split.
  - destruct (C7_EncryptionMethod_mapping (Ext := demo_externals)
                "EncryptionMethod=blowfish;" demo_state
                (json_document cfg_S2) raw_S2)
      as (_ & _ & _ & Hother); [reflexivity | reflexivity |].
    apply Hother; discriminate.
  - destruct (C7_EncryptionMethod_mapping (Ext := demo_externals)
                "ckclient.json" demo_state (json_document cfg_S1) raw_S1)
      as (_ & Haes & _); [reflexivity | reflexivity |].
    apply Haes. reflexivity.
Defined.

(** C9, witness: a file that is not there leaves the state alone; a UID that
    is not base 64 leaves the new server name, method byte and connection
    count in the state, and the old UID. *)
Lemma C9_ParseConfig_not_atomic_witness :
  ParseConfig (Ext := demo_externals) "nosuchfile" demo_state =
    (Ret (Some "open nosuchfile: no such file or directory"), demo_state) /\
  ParseConfig (Ext := demo_externals) (single_line cfg_badUID) demo_state =
    (Ret (Some "Failed to parse UID: illegal base64 data at input byte 0"),
     overwritten 0 raw_badUID demo_state) /\
  ServerName (overwritten 0 raw_badUID demo_state) = "www.example.com" /\
  NumConn (overwritten 0 raw_badUID demo_state) = 4 /\
  ServerName demo_state = "" /\
  NumConn demo_state = 0.
Proof.
  split; [|split; [|repeat split]].
  - destruct (C9_ParseConfig_not_atomic (Ext := demo_externals)
                "nosuchfile" demo_state) as (Hread & _).
    apply (Hread ""). reflexivity.
  - destruct (C9_ParseConfig_not_atomic (Ext := demo_externals)
                (single_line cfg_badUID) demo_state) as (_ & _ & _ & Hlate).
    destruct (Hlate (json_document cfg_badUID) raw_badUID 0)
      as (Huid & _); [reflexivity | reflexivity | reflexivity |].
    apply (Huid ""). reflexivity.
Defined.

(** C10, witness: one entry without [;] is the name of a file (which is not
    there); a path with a [;] and a [=] in it is a single-line form (whose
    second entry has no [=], so that [ssvToJson] panics). *)
Lemma C10_inline_iff_semicolon_and_equals_witness :
  ParseConfig (Ext := demo_externals) "ServerName=x" demo_state =
    (Ret (Some "open ServerName=x: no such file or directory"), demo_state) /\
  ParseConfig (Ext := demo_externals) "/tmp/a=b;c.json" demo_state =
    (Panic "runtime error: index out of range [1] with length 1", demo_state).
Proof.
  split.
  - destruct (C10_inline_iff_semicolon_and_equals (Ext := demo_externals)
                "ServerName=x" demo_state) as (_ & Hfile).
    destruct Hfile as (_ & Herr).
    + rewrite <- !Contains_char. vm_compute. intros [Hs _]. discriminate Hs.
    + apply (Herr ""). reflexivity.
  - destruct (C10_inline_iff_semicolon_and_equals (Ext := demo_externals)
                "/tmp/a=b;c.json" demo_state) as (Hinline & _).
    destruct Hinline as (_ & Hpanic).
    + rewrite <- !Contains_char. vm_compute. split; reflexivity.
    + apply Hpanic. reflexivity.
Defined.


(** * More properties of the session *)

Section SessionTable.
Context {Conn : Type}.
Implicit Types (sesh : Session Conn).

(** The stream [OpenStream] returns is the one the table then holds under
    its id, and [isStream] knows the id; the lookups of every other id are
    what they were. *)
Theorem OpenStream_then_getStream sesh :
  exists stream,
    (OpenStream sesh).1.1 = (Some stream, None) /\
    getStream (stream_id stream) (OpenStream sesh).2 = Some stream /\
    isStream (stream_id stream) (OpenStream sesh).2 = true /\
    forall k, k <> stream_id stream ->
      getStream k (OpenStream sesh).2 = getStream k sesh /\
      isStream k (OpenStream sesh).2 = isStream k sesh.
Proof.
  exists (makeStream Conn (u32 (u32 (nextStreamID sesh + 1) - 1)) sesh).
  unfold OpenStream, getStream, isStream, makeStream.
  cbn [fst snd streams set_streams stream_id].
  split; [done|]. split; [apply lookup_insert_eq|]. split.
  - apply bool_decide_eq_true. rewrite lookup_insert_eq. eauto.
  - intros k Hk. by rewrite lookup_insert_ne.
Qed.

(** [addStream] too leaves the new stream in the table under the id of the
    frame, whether the send on the accept queue completes or not. *)
Theorem addStream_then_getStream sesh (sid : Z) :
  getStream sid (addStream sid sesh).2 = Some (mkStream sid 0 false "") /\
  isStream sid (addStream sid sesh).2 = true /\
  forall k, k <> sid ->
    getStream k (addStream sid sesh).2 = getStream k sesh.
Proof.
  assert (Hs : streams (addStream sid sesh).2 =
               <[sid := mkStream sid 0 false ""]> (streams sesh)).
  { unfold addStream. by destruct (send _ _). }
  unfold getStream, isStream. rewrite Hs. split; [apply lookup_insert_eq|].
  split.
  - apply bool_decide_eq_true. rewrite lookup_insert_eq. eauto.
  - intros k Hk. by rewrite lookup_insert_ne.
Qed.

(** [delStream] takes the id out of the table and nothing else; deleting
    twice is deleting once, and deleting an id the table does not hold
    leaves the table as it is. *)
Theorem delStream_lookup sesh (sid : Z) :
  getStream sid (delStream sid sesh) = None /\
  isStream sid (delStream sid sesh) = false /\
  (forall k, k <> sid ->
     getStream k (delStream sid sesh) = getStream k sesh) /\
  delStream sid (delStream sid sesh) = delStream sid sesh /\
  (isStream sid sesh = false ->
     streams (delStream sid sesh) = streams sesh).
Proof.
  unfold getStream, isStream, delStream.
  cbn [streams set_streams]. split; [apply lookup_delete_eq|]. split.
  - apply bool_decide_eq_false. rewrite lookup_delete_eq. by intros [? ?].
  - split; [intros k Hk; by apply lookup_delete_ne|]. split.
    + unfold set_streams. cbn. f_equal. apply map_eq. intros k.
      destruct (decide (k = sid)) as [->|Hne];
        [by rewrite !lookup_delete_eq | by rewrite !lookup_delete_ne].
    + intros Hno. apply bool_decide_eq_false in Hno.
      apply delete_id. destruct (streams sesh !! sid) eqn:E; [|done].
      exfalso. apply Hno. eauto.
Qed.

(** Opening a stream and deleting it again gives back the table, when the
    id the counter stood at was free. *)
Theorem OpenStream_then_delStream sesh :
  isStream (u32 (nextStreamID sesh)) sesh = false ->
  streams (delStream (u32 (nextStreamID sesh)) (OpenStream sesh).2) =
  streams sesh.
Proof.
  intros Hno. apply bool_decide_eq_false in Hno.
  unfold delStream, OpenStream. cbn [snd streams set_streams].
  rewrite u32_succ_pred. rewrite delete_insert_eq. apply delete_id.
  destruct (streams sesh !! u32 (nextStreamID sesh)) eqn:E; [|done].
  exfalso. apply Hno. eauto.
Qed.

End SessionTable.

Section SessionQueue.
Context {Conn : Type}.
Implicit Types (sesh : Session Conn).

(** While [die] is not raised (nil, or made and open), [AcceptStream] is a
    receive from the accept queue: it blocks on an empty queue, and
    otherwise its one return is the oldest pending stream, which leaves the
    queue while the others keep their order.  The table is not touched. *)
Theorem AcceptStream_takes_oldest sesh (cap : nat) (buf : list Stream) :
  die sesh = NilChan \/ (exists n, die sesh = MkChan n [] false) ->
  acceptCh sesh = MkChan cap buf false ->
  AcceptStream sesh =
  match buf with
  | [] => []
  | stream :: buf' =>
      [((Some stream, None), set_acceptCh (MkChan cap buf' false) sesh)]
  end.
Proof.
  intros Hdie Hq. unfold AcceptStream. rewrite Hq.
  assert (recv (die sesh) = None) as ->.
  { destruct Hdie as [->|[n ->]]; reflexivity. }
  by destruct buf.
Qed.

(** Streams opened by the peer queue up in the order of their first
    frames: as long as the accept queue has room, [n] calls of [addStream]
    put their [n] streams behind the ones already pending. *)
Theorem addStreams_queue_order (n : nat) (first : Z) sesh (buf : list Stream) :
  acceptCh sesh = MkChan acceptBacklog buf false ->
  (length buf + n <= acceptBacklog)%nat ->
  acceptCh (addStreams n first sesh) =
  MkChan acceptBacklog
         (buf ++ map (fun k : nat => mkStream (first + Z.of_nat k) 0 false "")
                     (seq 0 n))
         false.
Proof.
  revert first sesh buf. induction n as [|n IH]; intros first sesh buf Hq Hlen.
  - simpl. by rewrite app_nil_r.
  - cbn [addStreams].
    assert (Hq' : acceptCh (addStream first sesh).2 =
                  MkChan acceptBacklog (buf ++ [mkStream first 0 false ""]) false).
    { unfold addStream.
      change (acceptCh (set_streams _ sesh)) with (acceptCh sesh).
      rewrite Hq. unfold send.
      assert ((length buf <? acceptBacklog)%nat = true) as ->
        by (apply Nat.ltb_lt; lia).
      reflexivity. }
    rewrite (IH (first + 1) _ _ Hq').
    + rewrite <- app_assoc.
      assert (Hl :
        [mkStream first 0 false ""] ++
          map (fun k : nat => mkStream (first + 1 + Z.of_nat k) 0 false "")
              (seq 0 n) =
        map (fun k : nat => mkStream (first + Z.of_nat k) 0 false "")
            (seq 0 (S n))).
      { cbn [app map seq]. replace (first + Z.of_nat 0) with first by lia.
        apply (f_equal (cons _)).
        rewrite <- seq_shift, map_map. apply map_ext. intros k.
        f_equal. lia. }
      by rewrite Hl.
    + rewrite length_app. simpl. lia.
Qed.

End SessionQueue.

Section SessionShutdown.
Context {Conn : Type}.
Implicit Types (sesh : Session Conn).

Lemma AcceptStream_die sesh out :
  die sesh = NilChan -> In out (AcceptStream sesh) ->
  die out.2 = NilChan /\ out.1.2 = None.
Proof.
  intros Hd Hin. unfold AcceptStream in Hin. rewrite Hd in Hin. simpl in Hin.
  destruct (recv (acceptCh sesh)) as [[v c]|]; [|done].
  destruct Hin as [<-|[]]. by split.
Qed.

(** No session a program can reach has a [die] channel: [MakeSession]
    leaves the field nil and no method assigns it.  On such a session
    [AcceptStream] never returns the broken-session error (nor any other),
    and [Close] never returns nil: it panics the first time and returns the
    repeated-closing error from then on. *)
Theorem reachable_die_is_nil sesh :
  reachable sesh ->
  die sesh = NilChan /\
  (forall out, In out (AcceptStream sesh) -> out.1.2 = None) /\
  (Close sesh).1.1 =
    (if closing sesh then Ret (Some errRepeatSessionClosing)
     else Panic "close of nil channel").
Proof.
  intros Hr.
  assert (Hd : die sesh = NilChan).
  { induction Hr as [| s _ IH | sid s _ IH | sid s _ IH | s _ IH | s out _ IH Hin].
    - reflexivity.
    - by rewrite OpenStream_die.
    - by rewrite addStream_die.
    - exact IH.
    - by apply Close_nil_die.
    - by apply (AcceptStream_die s out). }
  split; [done|]. split.
  - intros out Hin. by apply (AcceptStream_die sesh out).
  - unfold Close. destruct (closing sesh); [done|]. simpl. by rewrite Hd.
Qed.

(** Whatever the first call of [Close] did (returned, panicked, or found
    the session closing already), a call after it returns the
    repeated-closing error, starts nothing and changes nothing. *)
Theorem Close_twice sesh :
  Close (Close sesh).2 =
  (Ret (Some errRepeatSessionClosing), [], (Close sesh).2).
Proof. apply Close_repeat, Close_closing. Qed.

(** [Close] on a session whose [die] channel was made and is open: nil is
    returned, no id is a stream any more, [die] is closed, one
    [closeNoDelMap] was started for each stream the table held and for
    nothing else; the accept queue and the id counter are as they were, so
    streams still pending in the queue can be accepted after it. *)
Theorem Close_sweeps_table sesh (n : nat) (buf : list unit) :
  closing sesh = false ->
  die sesh = MkChan n buf false ->
  (Close sesh).1.1 = Ret None /\
  (forall k, isStream k (Close sesh).2 = false) /\
  is_closed (die (Close sesh).2) = true /\
  closing (Close sesh).2 = true /\
  acceptCh (Close sesh).2 = acceptCh sesh /\
  nextStreamID (Close sesh).2 = nextStreamID sesh /\
  length (Close sesh).1.2 = size (streams sesh) /\
  (forall stream,
     In (EvGoCloseNoDelMap stream) (Close sesh).1.2 <->
     exists k, streams sesh !! k = Some stream).
Proof.
  intros Hc Hd. rewrite (Close_open_die sesh n buf Hc Hd).
  cbn [fst snd]. repeat split; try done.
  - rewrite length_map. apply length_map_to_list.
  - intros Hin. apply in_map_iff in Hin as ([k st] & Heq & Hin).
    injection Heq as <-. exists k. apply elem_of_map_to_list.
    by apply list_elem_of_In.
  - intros [k Hk]. apply in_map_iff. exists (k, stream). split; [done|].
    apply list_elem_of_In. by apply elem_of_map_to_list.
Qed.

(** Neither [OpenStream] nor [addStream] looks at [closing] or at [die]: on
    a session that [Close] has swept they put their stream into the empty
    table as on any other, and [OpenStream] returns it with a nil error. *)
Theorem streams_enter_after_Close sesh (n : nat) (buf : list unit) (sid : Z) :
  closing sesh = false ->
  die sesh = MkChan n buf false ->
  (OpenStream (Close sesh).2).1.1 =
    (Some (mkStream (u32 (nextStreamID sesh)) 0 false ""), None) /\
  streams (OpenStream (Close sesh).2).2 =
    {[ u32 (nextStreamID sesh) := mkStream (u32 (nextStreamID sesh)) 0 false "" ]} /\
  streams (addStream sid (Close sesh).2).2 =
    {[ sid := mkStream sid 0 false "" ]} /\
  closing (OpenStream (Close sesh).2).2 = true.
Proof.
  intros Hc Hd. rewrite (Close_open_die sesh n buf Hc Hd). cbn [snd].
  unfold OpenStream, makeStream. cbn [fst snd streams set_streams
    set_nextStreamID nextStreamID set_die set_closing closing].
  rewrite u32_succ_pred. repeat split.
  unfold addStream. destruct (send _ _); reflexivity.
Qed.

(** The table after [n] calls of [OpenStream], as long as the counter does
    not wrap: the ids from the counter's first value on are bound to their
    streams, every other id is bound as before, and the counter has moved
    on by [n]. *)
Lemma OpenStream_ids_table (n : nat) sesh :
  0 <= nextStreamID sesh < 2 ^ 32 ->
  nextStreamID sesh + Z.of_nat n <= 2 ^ 32 ->
  (forall k,
     streams (OpenStream_ids n sesh).2 !! k =
     if decide (nextStreamID sesh <= k < nextStreamID sesh + Z.of_nat n)
     then Some (mkStream k 0 false "")
     else streams sesh !! k) /\
  nextStreamID (OpenStream_ids n sesh).2 = u32 (nextStreamID sesh + Z.of_nat n).
Proof.
  revert sesh. induction n as [|n IH]; intros sesh Hge Hn.
  - cbn [OpenStream_ids snd]. split.
    + intros k. destruct (decide _) as [Hk|Hk]; [lia | done].
    + rewrite Z.add_0_r. symmetry. apply u32_small. lia.
  - set (s1 := (OpenStream sesh).2).
    assert (Hnext1 : nextStreamID s1 = u32 (nextStreamID sesh + 1)) by reflexivity.
    assert (Hst1 : streams s1 =
      <[nextStreamID sesh := mkStream (nextStreamID sesh) 0 false ""]> (streams sesh)).
    { subst s1. unfold OpenStream, makeStream. cbn [snd streams set_streams].
      rewrite u32_succ_pred, u32_small by lia. done. }
    assert (Hrun : OpenStream_ids (S n) sesh =
      (match (OpenStream sesh).1.1.1 with
       | Some st => stream_id st | None => 0 end :: (OpenStream_ids n s1).1,
       (OpenStream_ids n s1).2)).
    { cbn [OpenStream_ids]. subst s1. unfold OpenStream at 1 2. cbn [fst snd].
      by destruct (OpenStream_ids n _). }
    destruct (decide (n = 0%nat)) as [->|Hpos].
    + rewrite Hrun. cbn [OpenStream_ids snd]. split.
      * intros k. rewrite Hst1.
        destruct (decide (k = nextStreamID sesh)) as [->|Hne].
        -- rewrite lookup_insert_eq, decide_True by lia. done.
        -- rewrite lookup_insert_ne by done. rewrite decide_False by lia. done.
      * rewrite Hnext1. f_equal.
    + assert (Hsm : nextStreamID s1 = nextStreamID sesh + 1).
      { rewrite Hnext1. apply u32_small. lia. }
      destruct (IH s1) as [IHt IHn]; [lia | lia |].
      rewrite Hrun. cbn [snd]. split.
      * intros k. rewrite IHt, Hsm, Hst1.
        destruct (decide (k = nextStreamID sesh)) as [->|Hne].
        -- rewrite decide_False by lia. rewrite lookup_insert_eq.
           rewrite decide_True by lia. done.
        -- rewrite lookup_insert_ne by done.
           destruct (decide (nextStreamID sesh + 1 <= k <
                             nextStreamID sesh + 1 + Z.of_nat n));
             [rewrite decide_True by lia | rewrite decide_False by lia]; done.
      * rewrite IHn, Hsm. f_equal. lia.
Qed.

(** On a session just built, after [n] calls of [OpenStream] with [n]
    below 2^32, the table holds exactly the ids 1, ..., n, each bound to
    the stream of that id, and its size is [n]. *)
Theorem OpenStream_ids_fill_table
    (sid : Z) (conn : Conn) (o : Frame -> string) (d : string -> option Frame)
    (r : Conn -> string -> Z * option error) (n : nat) :
  Z.of_nat n < 2 ^ 32 ->
  let sesh' := (OpenStream_ids n (MakeSession sid conn o d r)).2 in
  (forall k, getStream k sesh' =
     if decide (1 <= k <= Z.of_nat n) then Some (mkStream k 0 false "")
     else None) /\
  nextStreamID sesh' = u32 (Z.of_nat n + 1).
Proof.
  intros Hn sesh'.
  destruct (OpenStream_ids_table n (MakeSession sid conn o d r)) as [Ht Hc].
  - change (nextStreamID (MakeSession sid conn o d r)) with 1. lia.
  - change (nextStreamID (MakeSession sid conn o d r)) with 1. lia.
  - change (nextStreamID (MakeSession sid conn o d r)) with 1 in Ht, Hc.
    split.
    + intros k. unfold getStream. subst sesh'. rewrite Ht.
      destruct (decide (1 <= k < 1 + Z.of_nat n));
        [rewrite decide_True by lia | rewrite decide_False by lia]; done.
    + subst sesh'. rewrite Hc. f_equal. lia.
Qed.

End SessionShutdown.


(** * More properties of the configuration parser *)

Section SsvOutcome.

(** Where a byte occurs in a string there is a first place. *)
Lemma first_occurrence (c : ascii) (s : string) :
  In c (chars s) ->
  exists k v, s = k +:+ String c v /\ ~ In c (chars k).
Proof.
  induction s as [|a s IH]; [done|].
  destruct (ascii_dec c a) as [->|Hne].
  - intros _. exists "", s. split; [done | by intros []].
  - unfold chars. cbn [list_ascii_of_string In]. intros [Heq|Hin]; [congruence|].
    destruct (IH Hin) as (k & v & -> & Hk). exists (String a k), v.
    split; [done|]. unfold chars. cbn [list_ascii_of_string In].
    intros [Heq|Hin']; [congruence | by apply Hk].
Qed.

Lemma SplitN_without_equals (ln : string) :
  ~ In "="%char (chars ln) -> SplitN ln "=" 2 = [ln].
Proof.
  intros Hno. unfold SplitN. cbn [Z.eqb].
  by rewrite split_go_no_sep, string_app_nil_l.
Qed.

Lemma SplitN_with_equals (ln : string) :
  In "="%char (chars ln) -> exists k v, SplitN ln "=" 2 = [k; v].
Proof.
  intros Hin. destruct (first_occurrence _ _ Hin) as (k & v & -> & Hk).
  exists k, v. by apply (SplitN_entry k v).
Qed.

(** The loop of [ssvToJson] never blocks; what it returns keeps [ret] as
    its beginning; and it panics exactly on a line that is not empty and
    has no [=], reached through lines that are not empty and have one. *)
Lemma ssv_loop_outcome (lines : list string) (ret : string) :
  (exists more, ssv_loop lines ret = Ret (ret +:+ more)) \/
  (ssv_loop lines ret =
     Panic "runtime error: index out of range [1] with length 1" /\
   exists pre ln post,
     lines = pre ++ ln :: post /\ Forall entry_segment pre /\
     ln <> "" /\ ~ In "="%char (chars ln)).
Proof.
  revert ret. induction lines as [|ln lines IH]; intros ret.
  - left. exists "". simpl. by rewrite string_app_nil_r.
  - cbn [ssv_loop]. destruct (String.eqb ln "") eqn:Hempty.
    { left. exists "". by rewrite string_app_nil_r. }
    apply String.eqb_neq in Hempty.
    destruct (in_dec ascii_dec "="%char (chars ln)) as [Hin|Hno].
    + destruct (SplitN_with_equals ln Hin) as (k & v & ->).
      change ([k; v] !! 0%nat) with (Some k).
      change ([k; v] !! 1%nat) with (Some v). cbv beta iota.
      assert (Hstep : forall chunk : string,
        (exists more, ssv_loop lines (ret +:+ chunk) = Ret (ret +:+ more)) \/
        (ssv_loop lines (ret +:+ chunk) =
           Panic "runtime error: index out of range [1] with length 1" /\
         exists pre ln' post,
           ln :: lines = pre ++ ln' :: post /\ Forall entry_segment pre /\
           ln' <> "" /\ ~ In "="%char (chars ln'))).
      { intros chunk. destruct (IH (ret +:+ chunk)) as [[more Hm]|[Hp Hex]].
        - left. exists (chunk +:+ more). by rewrite Hm, string_app_assoc.
        - right. split; [done|].
          destruct Hex as (pre & ln' & post & -> & Hpre & Hne & Hno).
          exists (ln :: pre), ln', post. repeat split; try done.
          constructor; [by split | done]. }
      destruct (String.eqb k "TicketTimeHint" || String.eqb k "NumConn");
        apply Hstep.
    + right. rewrite (SplitN_without_equals ln Hno).
      split; [done|]. exists [], ln, lines. repeat split; done.
Qed.

Lemma ssv_loop_panics (pre : list string) (ln : string) (post : list string)
    (ret : string) :
  Forall entry_segment pre -> ln <> "" -> ~ In "="%char (chars ln) ->
  ssv_loop (pre ++ ln :: post) ret =
  Panic "runtime error: index out of range [1] with length 1".
Proof.
  intros Hpre Hne Hno. revert ret.
  induction Hpre as [|l pre [Hl Heq] _ IH]; intros ret.
  - cbn [app ssv_loop]. apply String.eqb_neq in Hne. rewrite Hne.
    by rewrite (SplitN_without_equals ln Hno).
  - cbn [app ssv_loop]. apply String.eqb_neq in Hl. rewrite Hl.
    destruct (SplitN_with_equals l Heq) as (k & v & ->).
    change ([k; v] !! 0%nat) with (Some k).
    change ([k; v] !! 1%nat) with (Some v). cbv beta iota.
    destruct (String.eqb k "TicketTimeHint" || String.eqb k "NumConn");
      apply IH.
Qed.

Lemma ssvToJson_not_Block (ssv : string) : ssvToJson ssv <> Block.
Proof.
  unfold ssvToJson.
  destruct (ssv_loop_outcome (Split (unescape ssv) ";") "{")
    as [[more ->]|[-> _]]; [|done].
  rewrite string_length_app. by cbn [String.length Nat.add Nat.eqb].
Qed.

(** [ssvToJson] never blocks.  It panics exactly when, cutting the
    unescaped argument at [;], a segment that is not empty and has no [=]
    comes before the first empty segment; the panic is the index panic of
    [sp[1]], never the one of the final slice. *)
Theorem ssvToJson_panics_iff (ssv msg : string) :
  ssvToJson ssv <> Block /\
  (ssvToJson ssv = Panic msg <->
   msg = "runtime error: index out of range [1] with length 1" /\
   exists pre ln post,
     Split (unescape ssv) ";" = pre ++ ln :: post /\
     Forall entry_segment pre /\ ln <> "" /\ ~ In "="%char (chars ln)).
Proof.
  unfold ssvToJson.
  destruct (ssv_loop_outcome (Split (unescape ssv) ";") "{")
    as [[more Hret]|[Hpanic Hex]].
  - rewrite Hret. rewrite string_length_app. cbn [String.length Nat.add Nat.eqb].
    split; [done|]. split; [done|].
    intros (_ & pre & ln & post & Hsplit & Hpre & Hne & Hno).
    rewrite Hsplit, (ssv_loop_panics pre ln post "{" Hpre Hne Hno) in Hret.
    discriminate.
  - rewrite Hpanic. split; [done|]. split.
    + intros [= <-]. by split.
    + intros [-> _]. done.
Qed.

End SsvOutcome.

Section SsvEdges.

Lemma ssvToJson_congr (a b : string) :
  unescape a = unescape b -> ssvToJson a = ssvToJson b.
Proof. unfold ssvToJson. by intros ->. Qed.

(** The loop stops at the first empty segment: entries after it are not
    read.  With plain entries before it [ssvToJson] returns the JSON
    document of those entries; with none before it (an empty argument, or
    one that begins with [;]) the opening brace is what the final slice
    takes away and the result is the text [}]. *)
Theorem ssvToJson_stops_at_empty_segment (cfg : list entry) (rest : list string) :
  Forall plain_entry cfg ->
  Forall (fun l => ~ In ";"%char (chars l) /\ ~ In "\"%char (chars l)) rest ->
  ssvToJson (String.concat ";" (map entry_line cfg ++ "" :: rest)) =
  Ret (match cfg with [] => "}" | _ :: _ => json_document cfg end).
Proof.
  intros Hall Hrest.
  assert (Hlines : Forall (fun l => ~ In ";"%char (chars l) /\
                                    ~ In "\"%char (chars l))
                          (map entry_line cfg ++ "" :: rest)).
  { apply Forall_app. split.
    - apply List.Forall_forall. intros l Hl.
      apply in_map_iff in Hl as (x & <- & Hx).
      rewrite List.Forall_forall in Hall. by apply plain_entry_line, Hall.
    - constructor; [|done]. split; by intros []. }
  assert (Hnb : ~ In "\"%char
      (chars (String.concat ";" (map entry_line cfg ++ "" :: rest)))).
  { intros Hin. apply chars_concat_semicolon in Hin as [?|(l & Hl & Hc)];
      [discriminate|].
    rewrite List.Forall_forall in Hlines. by apply (Hlines l Hl). }
  assert (Hsplit : Split (String.concat ";" (map entry_line cfg ++ "" :: rest)) ";"
                   = map entry_line cfg ++ "" :: rest).
  { unfold Split, SplitN. cbn [Z.eqb].
    assert (Hsemi : Forall (fun l => ~ In ";"%char (chars l))
                           (map entry_line cfg ++ "" :: rest)).
    { eapply Forall_impl; [exact Hlines|]. by intros l [? _]. }
    destruct (map entry_line cfg ++ "" :: rest) as [|l ls] eqn:E.
    - by destruct (map entry_line cfg).
    - by apply (split_go_concat ";"%char (-1)). }
  unfold ssvToJson. rewrite (unescape_plain _ Hnb), Hsplit.
  destruct cfg as [|e cfg].
  - reflexivity.
  - rewrite (ssv_loop_entries (e :: cfg) ("" :: rest) "{" Hall) by eauto.
    rewrite members_trailing_comma, <- string_app_assoc.
    rewrite take_trailing_comma.
    rewrite string_length_app, string_length_app. cbn [String.length].
    unfold json_document. by rewrite string_app_assoc.
Qed.

(** A line with [\=] for some of its [=] and no other backslash: the first
    and the third replacement find nothing, the second gives the [=] back. *)
Lemma unescape_eq_escaped (line plain : string) :
  eq_escaped line plain -> unescape line = plain.
Proof.
  intros He.
  assert (H1 : replace_go "\\" "\" 0 line = line).
  { induction He as [|c line plain Hc _ IH|line plain _ IH]; [done| |].
    - cbn [replace_go]. rewrite prefix_head_ne by done. by rewrite IH.
    - cbn [replace_go]. rewrite prefix_head_eq, prefix_head_ne by done.
      rewrite prefix_head_ne by done. by rewrite IH. }
  assert (H2 : replace_go "\=" "=" 0 line = plain).
  { clear H1. induction He as [|c line plain Hc _ IH|line plain _ IH]; [done| |].
    - cbn [replace_go]. rewrite prefix_head_ne by done. by rewrite IH.
    - cbn [replace_go]. rewrite !prefix_head_eq, prefix_nil.
      cbn [String.length Nat.sub]. by rewrite IH. }
  assert (H3 : ~ In "\"%char (chars plain)).
  { clear H1 H2. induction He as [|c line plain Hc _ IH|line plain _ IH]; [by intros []| |].
    - unfold chars. cbn [list_ascii_of_string In]. intros [?|?]; [congruence|done].
    - unfold chars. cbn [list_ascii_of_string In]. intros [?|?]; [discriminate|done]. }
  unfold unescape, Replace. cbv beta iota zeta.
  by rewrite H1, H2, (replace_go_absent _ _ _ _ H3).
Qed.

Lemma eq_escaped_chars (line plain : string) (c : ascii) :
  eq_escaped line plain -> c <> "\"%char ->
  (In c (chars line) <-> In c (chars plain)).
Proof.
  intros He Hc.
  induction He as [|a line plain Ha _ IH|line plain _ IH]; [done| |];
    unfold chars in *; cbn [list_ascii_of_string In]; rewrite IH.
  - done.
  - split; [intros [?|[?|?]]; [congruence | tauto | tauto] | tauto].
Qed.

End SsvEdges.

Section ParseConfigMore.
Context `{Ext : Externals}.
Implicit Types (conf content : string) (sta : State) (preParse : rawConfig).

(** The escape of [=] works: a line in which some [=] are written [\=],
    and which has no other backslash, unescapes to the line with the plain
    [=]; [ssvToJson] treats the two lines alike, and so does [ParseConfig]
    when they are single-line forms. *)
Theorem escaped_equals_is_equals (line plain : string) sta :
  eq_escaped line plain ->
  unescape line = plain /\
  ssvToJson line = ssvToJson plain /\
  (In ";"%char (chars plain) -> In "="%char (chars plain) ->
     ParseConfig line sta = ParseConfig plain sta).
Proof.
  intros He. pose proof (unescape_eq_escaped _ _ He) as Hu.
  assert (Hp : unescape plain = plain).
  { apply unescape_plain. clear Hu.
    induction He as [|c line plain Hc _ IH|line plain _ IH]; [by intros []| |];
      unfold chars in *; cbn [list_ascii_of_string In].
    - intros [?|?]; [congruence|done].
    - intros [?|?]; [discriminate|done]. }
  assert (Hs : ssvToJson line = ssvToJson plain).
  { apply ssvToJson_congr. by rewrite Hu, Hp. }
  split; [done|]. split; [done|].
  assert (Hc : forall c, c <> "\"%char ->
            Contains line (String c "") = Contains plain (String c "")).
  { intros c Hc. pose proof (eq_escaped_chars _ _ c He Hc) as Hiff.
    rewrite <- !Contains_char in Hiff.
    destruct (Contains line (String c "")), (Contains plain (String c ""));
      try done; [symmetry; by apply Hiff | by apply Hiff]. }
  assert (H1 : ";"%char <> "\"%char) by (intros [=]).
  assert (H2 : "="%char <> "\"%char) by (intros [=]).
  intros Hsemi Heq. apply Contains_char in Hsemi, Heq.
  unfold ParseConfig, config_content.
  rewrite (Hc _ H1), (Hc _ H2), Hsemi, Heq. cbn [andb]. by rewrite Hs.
Qed.

(** [ParseConfig] writes to the eight configuration fields only: the
    addresses, the clock, the session id and the key pairs are what they
    were, whatever the call does. *)
Theorem ParseConfig_keeps_runtime_fields conf sta :
  LocalHost (ParseConfig conf sta).2 = LocalHost sta /\
  LocalPort (ParseConfig conf sta).2 = LocalPort sta /\
  RemoteHost (ParseConfig conf sta).2 = RemoteHost sta /\
  RemotePort (ParseConfig conf sta).2 = RemotePort sta /\
  Now (ParseConfig conf sta).2 = Now sta /\
  sessionID (ParseConfig conf sta).2 = sessionID sta /\
  keyPairs (ParseConfig conf sta).2 = keyPairs sta.
Proof.
  unfold ParseConfig.
  destruct (config_content conf) as [[content [err|]]|msg|]; try done.
  destruct (json_Unmarshal content) as [preParse [err|]]; [done|].
  destruct (encryptionByte _); [|done].
  destruct (base64_DecodeString (raw_UID preParse)) as [uid [err|]]; [done|].
  destruct (base64_DecodeString (raw_PublicKey preParse)) as [pb [err|]]; [done|].
  by destruct (ecdh_Unmarshal pb) as [pub [|]].
Qed.

(** The session id and the configuration do not meet: setting the id
    before [ParseConfig] or after it gives the same state, and the same
    result. *)
Theorem ParseConfig_SetSessionID conf sta (v : Z) :
  ParseConfig conf (SetSessionID v sta) =
  ((ParseConfig conf sta).1, SetSessionID v (ParseConfig conf sta).2).
Proof.
  unfold ParseConfig.
  destruct (config_content conf) as [[content [err|]]|msg|]; try done.
  destruct (json_Unmarshal content) as [preParse [err|]]; [done|].
  destruct (encryptionByte _); [|done].
  destruct (base64_DecodeString (raw_UID preParse)) as [uid [err|]]; [done|].
  destruct (base64_DecodeString (raw_PublicKey preParse)) as [pb [err|]]; [done|].
  by destruct (ecdh_Unmarshal pb) as [pub [|]].
Qed.

(** The encryption byte of the state is 0, 1 or 2 after every call that
    returns nil, and after any call at all when it was so before. *)
Theorem ParseConfig_EncryptionMethod_range conf sta :
  let known (b : Z) := b = 0 \/ b = 1 \/ b = 2 in
  ((ParseConfig conf sta).1 = Ret None ->
     known (EncryptionMethod (ParseConfig conf sta).2)) /\
  (known (EncryptionMethod sta) ->
     known (EncryptionMethod (ParseConfig conf sta).2)).
Proof.
  intros known.
  assert (Hbyte : forall m e, encryptionByte m = Some e -> known e).
  { intros m e. unfold encryptionByte, known.
    destruct (String.eqb m "plain"); [intros [= <-]; tauto|].
    destruct (String.eqb m "aes"); [intros [= <-]; tauto|].
    destruct (String.eqb m "chacha20-poly1305"); [intros [= <-]; tauto|done]. }
  unfold ParseConfig.
  destruct (config_content conf) as [[content [err|]]|msg|]; try done.
  destruct (json_Unmarshal content) as [preParse [err|]]; [done|].
  destruct (encryptionByte _) as [e|] eqn:He; [|done].
  apply Hbyte in He.
  destruct (base64_DecodeString (raw_UID preParse)) as [uid [err|]]; [done|].
  destruct (base64_DecodeString (raw_PublicKey preParse)) as [pb [err|]]; [done|].
  by destruct (ecdh_Unmarshal pb) as [pub [|]].
Qed.

(** [ParseConfig] never blocks, and it panics only on the single-line
    form: a panic is a panic of [ssvToJson] on an argument that holds a
    [;] and a [=], and it leaves the state as it was. *)
Theorem ParseConfig_panics_only_inline conf sta :
  (ParseConfig conf sta).1 <> Block /\
  (forall msg, (ParseConfig conf sta).1 = Panic msg ->
     In ";"%char (chars conf) /\ In "="%char (chars conf) /\
     ssvToJson conf = Panic msg /\
     (ParseConfig conf sta).2 = sta).
Proof.
  pose proof (ssvToJson_not_Block conf) as Hblock.
  unfold ParseConfig, config_content.
  destruct (Contains conf ";") eqn:Hs; destruct (Contains conf "=") eqn:He;
    cbn [andb].
  1: { apply Contains_char in Hs, He.
       destruct (ssvToJson conf) as [c|m|]; [| |done].
       - destruct (json_Unmarshal c) as [preParse [err|]]; [done|].
         destruct (encryptionByte _); [|done].
         destruct (base64_DecodeString (raw_UID preParse)) as [uid [err|]]; [done|].
         destruct (base64_DecodeString (raw_PublicKey preParse)) as [pb [err|]]; [done|].
         by destruct (ecdh_Unmarshal pb) as [pub [|]].
       - split; [done|]. by intros msg [= <-]. }
  all: destruct (ioutil_ReadFile conf) as [content [err|]]; [done|];
       destruct (json_Unmarshal content) as [preParse [err|]]; [done|];
       destruct (encryptionByte _); [|done];
       destruct (base64_DecodeString (raw_UID preParse)) as [uid [err|]]; [done|];
       destruct (base64_DecodeString (raw_PublicKey preParse)) as [pb [err|]]; [done|];
       by destruct (ecdh_Unmarshal pb) as [pub [|]].
Qed.

(** What a nil return means: the text was obtained and decoded, the method
    is a known one, the UID and the public key are base 64 and the key is
    one [ecdh.Unmarshal] takes; the state then holds the decoded UID and
    key and the six plain fields of the configuration. *)
Theorem ParseConfig_nil_inversion conf sta sta' :
  ParseConfig conf sta = (Ret None, sta') ->
  exists content preParse e uid pubBytes pub,
    config_content conf = Ret (content, None) /\
    json_Unmarshal content = (preParse, None) /\
    encryptionByte (raw_EncryptionMethod preParse) = Some e /\
    base64_DecodeString (raw_UID preParse) = (uid, None) /\
    base64_DecodeString (raw_PublicKey preParse) = (pubBytes, None) /\
    ecdh_Unmarshal pubBytes = (pub, true) /\
    sta' = set_staticPub pub (set_UID uid (overwritten e preParse sta)) /\
    UID sta' = uid /\ staticPub sta' = pub /\
    EncryptionMethod sta' = e /\
    ServerName sta' = raw_ServerName preParse /\
    ProxyMethod sta' = raw_ProxyMethod preParse /\
    TicketTimeHint sta' = raw_TicketTimeHint preParse /\
    BrowserSig sta' = raw_BrowserSig preParse /\
    NumConn sta' = raw_NumConn preParse.
Proof.
  unfold ParseConfig.
  destruct (config_content conf) as [[content [err|]]|msg|] eqn:Hc; try done.
  destruct (json_Unmarshal content) as [preParse [err|]] eqn:Hj; [done|].
  destruct (encryptionByte _) as [e|] eqn:He; [|done].
  destruct (base64_DecodeString (raw_UID preParse)) as [uid [err|]] eqn:Hu; [done|].
  destruct (base64_DecodeString (raw_PublicKey preParse)) as [pb [err|]] eqn:Hp; [done|].
  destruct (ecdh_Unmarshal pb) as [pub [|]] eqn:Hk; [|done].
  intros [= <-]. exists content, preParse, e, uid, pb, pub.
  repeat split; done.
Qed.

End ParseConfigMore.

(** *** The further properties at concrete sessions and configurations *)

Lemma OpenStream_then_delStream_witness :
  isStream (u32 (nextStreamID demo_session)) demo_session = false /\
  streams (delStream 1 (OpenStream demo_session).2) = streams demo_session.
Proof.
  split; [reflexivity|].
  apply (OpenStream_then_delStream demo_session). reflexivity.
Defined.

Lemma AcceptStream_takes_oldest_witness :
  acceptCh (addStreams 2 5 demo_session) =
    MkChan acceptBacklog [mkStream 5 0 false ""; mkStream 6 0 false ""] false /\
  AcceptStream (addStreams 2 5 demo_session) =
    [((Some (mkStream 5 0 false ""), None),
      set_acceptCh (MkChan acceptBacklog [mkStream 6 0 false ""] false)
                   (addStreams 2 5 demo_session))].
Proof.
  split; [reflexivity|].
  apply (AcceptStream_takes_oldest (addStreams 2 5 demo_session) acceptBacklog
           [mkStream 5 0 false ""; mkStream 6 0 false ""]).
  - left. reflexivity.
  - reflexivity.
Defined.

Lemma addStreams_queue_order_witness :
  acceptCh (addStreams 3 10 demo_session) =
  MkChan acceptBacklog
         [mkStream 10 0 false ""; mkStream 11 0 false ""; mkStream 12 0 false ""]
         false.
Proof.
  apply (addStreams_queue_order 3 10 demo_session []).
  - reflexivity.
  - unfold acceptBacklog. simpl. lia.
Defined.

Lemma reachable_die_is_nil_witness :
  reachable (Close (OpenStream demo_session).2).2 /\
  die (Close (OpenStream demo_session).2).2 = NilChan.
Proof.
  assert (Hr : reachable (Close (OpenStream demo_session).2).2).
  { apply reach_Close, reach_OpenStream. unfold demo_session.
    apply reach_MakeSession. }
  split; [exact Hr|].
  apply (reachable_die_is_nil (Close (OpenStream demo_session).2).2 Hr).
Defined.

Lemma Close_sweeps_table_witness :
  closing (addStream 7 made_die_session).2 = false /\
  die (addStream 7 made_die_session).2 = MkChan 0 [] false /\
  (Close (addStream 7 made_die_session).2).1.1 = Ret None /\
  isStream 7 (Close (addStream 7 made_die_session).2).2 = false.
Proof.
  split; [reflexivity|]. split; [reflexivity|].
  destruct (Close_sweeps_table (addStream 7 made_die_session).2 0 [])
    as (Hret & Hno & _); [reflexivity | reflexivity |].
  split; [exact Hret | apply Hno].
Defined.

Lemma streams_enter_after_Close_witness :
  closing made_die_session = false /\
  die made_die_session = MkChan 0 [] false /\
  streams (OpenStream (Close made_die_session).2).2 =
    {[ 1 := mkStream 1 0 false "" ]}.
Proof.
  split; [reflexivity|]. split; [reflexivity|].
  destruct (streams_enter_after_Close made_die_session 0 [] 9)
    as (_ & Hopen & _); [reflexivity | reflexivity |].
  exact Hopen.
Defined.

Lemma OpenStream_ids_fill_table_witness :
  Z.of_nat 3 < 2 ^ 32 /\
  getStream 2 (OpenStream_ids 3 demo_session).2 = Some (mkStream 2 0 false "") /\
  getStream 4 (OpenStream_ids 3 demo_session).2 = None.
Proof.
  split; [lia|].
  destruct (OpenStream_ids_fill_table 0 tt Payload
              (fun b => Some (mkFrame 0 0 0 b))
              (fun _ b => (Z.of_nat (String.length b), None)) 3%nat)
    as [Hget _]; [lia|].
  split; [apply (Hget 2) | apply (Hget 4)].
Defined.

Lemma ssvToJson_stops_at_empty_segment_witness :
  ssvToJson "a=1;;b=2" = Ret (json_document [("a", "1")]) /\
  ssvToJson ";a=1" = Ret "}".
Proof.
  split.
  - apply (ssvToJson_stops_at_empty_segment [("a", "1")] ["b=2"]).
    + apply (bool_decide_unpack _). vm_compute. exact I.
    + repeat constructor; unfold chars; simpl; intuition discriminate.
  - apply (ssvToJson_stops_at_empty_segment [] ["a=1"]).
    + constructor.
    + repeat constructor; unfold chars; simpl; intuition discriminate.
Defined.

Lemma escaped_equals_is_equals_witness :
  eq_escaped "UID=AAAA\=\=;NumConn=4" "UID=AAAA==;NumConn=4" /\
  unescape "UID=AAAA\=\=;NumConn=4" = "UID=AAAA==;NumConn=4" /\
  ssvToJson "UID=AAAA\=\=;NumConn=4" = ssvToJson "UID=AAAA==;NumConn=4".
Proof.
  assert (He : eq_escaped "UID=AAAA\=\=;NumConn=4" "UID=AAAA==;NumConn=4").
  { repeat first [ apply eq_escaped_esc
                 | apply eq_escaped_char; [discriminate|]
                 | apply eq_escaped_nil ]. }
  split; [exact He|].
  destruct (escaped_equals_is_equals (Ext := demo_externals) _ _ demo_state He)
    as (Hu & Hs & _).
  split; [exact Hu | exact Hs].
Defined.

Lemma ParseConfig_nil_inversion_witness :
  ParseConfig (Ext := demo_externals) "ckclient.json" demo_state =
    (Ret None, (ParseConfig (Ext := demo_externals) "ckclient.json" demo_state).2) /\
  exists content preParse,
    config_content (Ext := demo_externals) "ckclient.json" = Ret (content, None) /\
    json_Unmarshal (Externals := demo_externals) content = (preParse, None) /\
    ServerName (ParseConfig (Ext := demo_externals) "ckclient.json" demo_state).2
      = raw_ServerName preParse.
Proof.
  assert (Hnil : ParseConfig (Ext := demo_externals) "ckclient.json" demo_state =
    (Ret None, (ParseConfig (Ext := demo_externals) "ckclient.json" demo_state).2))
    by reflexivity.
  split; [exact Hnil|].
  destruct (ParseConfig_nil_inversion (Ext := demo_externals) _ _ _ Hnil)
    as (content & preParse & e & uid & pb & pub & Hc & Hj & He & Hu & Hp & Hk &
        Hst & Huid & Hpub & Henc & Hname & _).
  exists content, preParse. split; [exact Hc|]. split; [exact Hj | exact Hname].
Defined.
